(** * Matching and ranking engine of [app/services.py]

    A shallow embedding of [DataLoader], [UserMatcher.match_users] and
    [SemanticSearcher.search_transactions], with the properties the
    specification states about them.

    Modelling conventions.
    - Python [str] values are [string]s whose characters are the code points
      0..255; [strip], [lower] and [split] follow Python on that range.
    - Python [float] values are exact rationals ([Q]): every float is a
      rational, and the arithmetic of the source ([+], [*], [/], [round],
      comparisons) is carried out exactly.  Rounding error of the machine
      arithmetic is outside the model: where the exact score is a tie of
      [round], or where two values are closer than the precision of the
      machine, the double of the code can fall on the other side.  The
      module [FloatModel] holds the normalization on binary64 numbers, for
      the one place where this decides a statement.
    - The values of a CSV row are strings; the [None] that
      [csv.DictReader] gives for a column missing from a short row is
      outside the model.
    - A Python [dict] is an association list in insertion order whose keys are
      pairwise different; [d[k] = v] is [Dict.set].
    - Code that can raise returns in the error monad [result].
    - [rapidfuzz.fuzz.token_sort_ratio], [SentenceTransformer.encode],
      [np.dot] and [np.linalg.norm] are third-party functions: they are
      section variables, with the facts assumed of them as hypotheses. *)

From Stdlib Require Import String Ascii List Bool Arith ZArith QArith Qround Qabs.
From Stdlib Require Import Lia Lqa Permutation Sorted.
From Stdlib Require PrimFloat.
Import ListNotations.

Close Scope Q_scope.
Local Open Scope string_scope.

(* ================================================================== *)
(** ** Python strings *)

Module PyStr.

Local Open Scope nat_scope.

(** [str.isspace] on one character, code points 0..255. *)
Definition is_space (c : ascii) : bool :=
  let n := nat_of_ascii c in
  ((9 <=? n) && (n <=? 13)) || ((28 <=? n) && (n <=? 32))
  || (n =? 133) || (n =? 160).

(** [str.lower] on one character, code points 0..255. *)
Definition lower_char (c : ascii) : ascii :=
  let n := nat_of_ascii c in
  if ((65 <=? n) && (n <=? 90))
     || ((192 <=? n) && (n <=? 214))
     || ((216 <=? n) && (n <=? 222))
  then ascii_of_nat (n + 32) else c.

Fixpoint lower (s : string) : string :=
  match s with
  | EmptyString => EmptyString
  | String c r => String (lower_char c) (lower r)
  end.

Fixpoint lstrip (s : string) : string :=
  match s with
  | EmptyString => EmptyString
  | String c r => if is_space c then lstrip r else s
  end.

(** [rstrip]: a whitespace character is dropped when everything after it
    has been dropped. *)
Fixpoint rstrip (s : string) : string :=
  match s with
  | EmptyString => EmptyString
  | String c r =>
      match rstrip r with
      | EmptyString => if is_space c then EmptyString else String c EmptyString
      | r' => String c r'
      end
  end.

Definition strip (s : string) : string := rstrip (lstrip s).

(** [s.split()] with no argument: maximal runs of non-whitespace
    characters; no empty token is produced.  [cur] is the token being
    read, in reverse. *)
Fixpoint rev_string (acc s : string) : string :=
  match s with
  | EmptyString => acc
  | String c r => rev_string (String c acc) r
  end.

Definition flush (cur : string) (k : list string) : list string :=
  match cur with
  | EmptyString => k
  | _ => rev_string EmptyString cur :: k
  end.

Fixpoint split_aux (cur : string) (s : string) : list string :=
  match s with
  | EmptyString => flush cur []
  | String c r =>
      if is_space c then flush cur (split_aux EmptyString r)
      else split_aux (String c cur) r
  end.

Definition split (s : string) : list string := split_aux EmptyString s.

(** [a in b] for two strings. *)
Fixpoint contains (a b : string) : bool :=
  prefix a b ||
  match b with
  | EmptyString => false
  | String _ r => contains a r
  end.

(** [x in l] for a list of strings. *)
Definition mem (x : string) (l : list string) : bool :=
  existsb (String.eqb x) l.

(** [not s]: the empty string is falsy. *)
Definition is_empty (s : string) : bool :=
  match s with EmptyString => true | _ => false end.

End PyStr.

(* ================================================================== *)
(** ** Python numbers *)

Module PyNum.

Local Open Scope Q_scope.

(** Round half to even, to an integer. *)
Definition round_half_even (x : Q) : Z :=
  let f := Qfloor x in
  match Qcompare (x - inject_Z f) (1 # 2) with
  | Lt => f
  | Gt => (f + 1)%Z
  | Eq => if Z.even f then f else (f + 1)%Z
  end.

(** [round(x, 2)].  The result is in lowest terms, so that equal scores
    are equal terms. *)
Definition round2 (x : Q) : Q := Qred (round_half_even (x * 100) # 100).

(** A value with at most two decimals. *)
Definition two_decimals (x : Q) : Prop := exists k : Z, x == k # 100.

End PyNum.

(* ================================================================== *)
(** ** Exceptions *)

Inductive py_error : Type :=
| KeyError
| IndexError
| ZeroDivisionError.

Inductive result (A : Type) : Type :=
| Ok (a : A)
| Raise (e : py_error).

Arguments Ok {A} a.
Arguments Raise {A} e.

Definition bind {A B : Type} (m : result A) (k : A -> result B) : result B :=
  match m with
  | Ok a => k a
  | Raise e => Raise e
  end.

Notation "x <- m ;; k" := (bind m (fun x => k))
  (at level 61, m at next level, right associativity).

(** A list comprehension whose element expression can raise. *)
Fixpoint mapM {A B : Type} (f : A -> result B) (l : list A) : result (list B) :=
  match l with
  | [] => Ok []
  | a :: r => b <- f a ;; bs <- mapM f r ;; Ok (b :: bs)
  end.

(** [a / b] on two lengths. *)
Definition truediv (a b : nat) : result Q :=
  if Nat.eqb b 0 then Raise ZeroDivisionError
  else Ok (Qdiv (inject_Z (Z.of_nat a)) (inject_Z (Z.of_nat b))).

(** [l[i]] on a list. *)
Definition list_getitem {A : Type} (l : list A) (i : nat) : result A :=
  match nth_error l i with
  | Some a => Ok a
  | None => Raise IndexError
  end.

(** [enumerate(l)]. *)
Fixpoint enumerate_from {A : Type} (i : nat) (l : list A) : list (nat * A) :=
  match l with
  | [] => []
  | a :: r => (i, a) :: enumerate_from (S i) r
  end.

Definition enumerate {A : Type} (l : list A) : list (nat * A) :=
  enumerate_from 0 l.

(* ================================================================== *)
(** ** Python dictionaries, in insertion order *)

Module Dict.

Definition dict (V : Type) : Type := list (string * V).

Definition empty {V : Type} : dict V := [].

(** [d.get(k)]. *)
Fixpoint get {V : Type} (d : dict V) (k : string) : option V :=
  match d with
  | [] => None
  | (k', v) :: r => if String.eqb k k' then Some v else get r k
  end.

(** [k in d]. *)
Definition contains {V : Type} (d : dict V) (k : string) : bool :=
  match get d k with Some _ => true | None => false end.

(** [d[k]]. *)
Definition getitem {V : Type} (d : dict V) (k : string) : result V :=
  match get d k with
  | Some v => Ok v
  | None => Raise KeyError
  end.

(** [d[k] = v]: a key that is present keeps its position, a new key goes
    last. *)
Fixpoint set {V : Type} (d : dict V) (k : string) (v : V) : dict V :=
  match d with
  | [] => [(k, v)]
  | (k', v') :: r =>
      if String.eqb k k' then (k', v) :: r else (k', v') :: set r k v
  end.

Definition items {V : Type} (d : dict V) : list (string * V) := d.

Definition keys {V : Type} (d : dict V) : list string := map fst d.

(** [not d]: the empty dictionary is falsy. *)
Definition is_empty {V : Type} (d : dict V) : bool :=
  match d with [] => true | _ => false end.

(** The invariant of a dictionary: no key twice. *)
Definition wf {V : Type} (d : dict V) : Prop := NoDup (keys d).

End Dict.

Import Dict.

(* ================================================================== *)
(** ** [sorted(items, key=lambda x: x[1], reverse=True)] *)

Definition Qgt_bool (a b : Q) : bool := negb (Qle_bool a b).

(** [sorted] is stable, also with [reverse=True]: of two entries with equal
    scores the one that comes first in the input comes first in the output.
    [insert_desc x l] puts [x] in front of the first entry whose score is
    not greater than its own. *)
Fixpoint insert_desc {K : Type} (x : K * Q) (l : list (K * Q)) : list (K * Q) :=
  match l with
  | [] => [x]
  | y :: r => if Qgt_bool (snd y) (snd x) then y :: insert_desc x r
              else x :: y :: r
  end.

Fixpoint sorted_desc {K : Type} (l : list (K * Q)) : list (K * Q) :=
  match l with
  | [] => []
  | x :: r => insert_desc x (sorted_desc r)
  end.

(* ================================================================== *)
(** ** [DataLoader] *)

(** A row of [csv.DictReader]: column name to value. *)
Definition row : Type := dict string.

(** The two CSV files; [None] when the path does not exist. *)
Record files : Type := {
  users_csv : option (list row);
  transactions_csv : option (list row)
}.

(** The class attributes of [DataLoader] and of [SemanticSearcher]. *)
Record state : Type := {
  users_cache : option (dict string);
  transactions_cache : option (dict string);
  model_loaded : bool
}.

Definition initial_state : state :=
  {| users_cache := None; transactions_cache := None; model_loaded := false |}.

Module DataLoader.

(** The [for row in reader] loop: a row with both columns is stored. *)
Fixpoint load_rows (key value : string) (rows : list row)
    (cache : dict string) : dict string :=
  match rows with
  | [] => cache
  | r :: rest =>
      let cache' :=
        if negb (Dict.is_empty r) && Dict.contains r key && Dict.contains r value
        then match Dict.get r key, Dict.get r value with
             | Some k, Some v => Dict.set cache k v
             | _, _ => cache
             end
        else cache in
      load_rows key value rest cache'
  end.

Definition load (key value : string) (file : option (list row)) : dict string :=
  match file with
  | None => Dict.empty
  | Some rows => load_rows key value rows Dict.empty
  end.

Definition get_users (fs : files) (st : state) : dict string * state :=
  match users_cache st with
  | Some d => (d, st)
  | None =>
      let d := load "id" "name" (users_csv fs) in
      (d, {| users_cache := Some d;
             transactions_cache := transactions_cache st;
             model_loaded := model_loaded st |})
  end.

Definition get_transactions (fs : files) (st : state) : dict string * state :=
  match transactions_cache st with
  | Some d => (d, st)
  | None =>
      let d := load "id" "description" (transactions_csv fs) in
      (d, {| users_cache := users_cache st;
             transactions_cache := Some d;
             model_loaded := model_loaded st |})
  end.

End DataLoader.

(* ================================================================== *)
(** ** Result entries ([app/models.py]) *)

Record UserMatch : Type := {
  user_id : string;
  match_metric : Q
}.

Record TransactionMatch : Type := {
  trans_id : string;
  embedding : Q
}.

(* ================================================================== *)
(** ** [UserMatcher] *)

Module UserMatcher.

Local Open Scope Q_scope.

Definition EXACT_MATCH_THRESHOLD : Q := 100.
Definition PARTIAL_MATCH_THRESHOLD : Q := 80.
Definition FUZZY_MATCH_THRESHOLD : Q := 70.

Section WithRatio.

(** [fuzz.token_sort_ratio], a value between 0 and 100. *)
Variable token_sort_ratio : string -> string -> Q.

(** The inner loop of strategy 4. *)
Fixpoint best_token (user_name_lower : string) (tokens : list string)
    (best_token_score : Q) : Q :=
  match tokens with
  | [] => best_token_score
  | token :: rest =>
      let token_score := token_sort_ratio user_name_lower token / 100 in
      best_token user_name_lower rest
        (if Qgt_bool token_score best_token_score then token_score
         else best_token_score)
  end.

(** The body of the loop over the users: the score the user gets, or
    [None] when no strategy applies. *)
Definition score_user (description : string) (tokens : list string)
    (user_name : string) : result (option Q) :=
  let user_name_lower := PyStr.lower (PyStr.strip user_name) in
  if String.eqb user_name_lower description then Ok (Some 1.0)
  else if PyStr.mem user_name_lower tokens then Ok (Some 0.95)
  else if PyStr.contains user_name_lower description then
    ratio <- truediv (String.length user_name_lower)
                     (String.length description) ;;
    Ok (Some (0.85 + ratio * 0.1))
  else
    let best_token_score := best_token user_name_lower tokens 0 in
    if Qle_bool (FUZZY_MATCH_THRESHOLD / 100) best_token_score
    then Ok (Some best_token_score)
    else
      let full_score := token_sort_ratio user_name_lower description / 100 in
      if Qle_bool (FUZZY_MATCH_THRESHOLD / 100) full_score
      then Ok (Some full_score)
      else Ok None.

(** The loop over [users.items()], filling [matches]. *)
Fixpoint match_loop (description : string) (tokens : list string)
    (users : list (string * string)) (matches : dict Q) : result (dict Q) :=
  match users with
  | [] => Ok matches
  | (uid, user_name) :: rest =>
      s <- score_user description tokens user_name ;;
      match_loop description tokens rest
        (match s with
         | Some score => Dict.set matches uid score
         | None => matches
         end)
  end.

Definition to_user_match (x : string * Q) : UserMatch :=
  {| user_id := fst x; match_metric := PyNum.round2 (snd x) |}.

(** [match_users] once both tables are at hand. *)
Definition match_users_on (transactions users : dict string)
    (transaction_id : string) : result (list UserMatch * nat) :=
  if negb (Dict.contains transactions transaction_id) then Ok ([], 0%nat)
  else
    text <- Dict.getitem transactions transaction_id ;;
    let description := PyStr.lower (PyStr.strip text) in
    if PyStr.is_empty description || Dict.is_empty users then Ok ([], 0%nat)
    else
      let tokens := PyStr.split description in
      matches <- match_loop description tokens (Dict.items users) Dict.empty ;;
      let sorted_matches := sorted_desc (Dict.items matches) in
      let result := map to_user_match sorted_matches in
      Ok (result, List.length result).

Definition match_users (fs : files) (st : state) (transaction_id : string)
    : result (list UserMatch * nat) * state :=
  let (transactions, st1) := DataLoader.get_transactions fs st in
  let (users, st2) := DataLoader.get_users fs st1 in
  (match_users_on transactions users transaction_id, st2).

End WithRatio.

End UserMatcher.

(* ================================================================== *)
(** ** [SemanticSearcher] *)

Module SemanticSearcher.

Local Open Scope Q_scope.

(** The constant [1e-10] of the denominator. *)
Definition epsilon : Q := 1 # 10000000000.

(** [(similarity + 1) / 2]. *)
Definition normalize (similarity : Q) : Q := (similarity + 1) / 2.

Definition get_model (st : state) : state :=
  {| users_cache := users_cache st;
     transactions_cache := transactions_cache st;
     model_loaded := true |}.

Section WithModel.

(** Embedding vectors, [model.encode] on one text, [np.dot] and
    [np.linalg.norm]. *)
Variable vector : Type.
Variable encode : string -> vector.
Variable dot : vector -> vector -> Q.
Variable norm : vector -> Q.

(** [settings.SIMILARITY_THRESHOLD]. *)
Variable SIMILARITY_THRESHOLD : Q.

Definition cosine (query_embedding description_embedding : vector) : Q :=
  dot query_embedding description_embedding
  / (norm query_embedding * norm description_embedding + epsilon).

(** The loop over [enumerate(zip(transaction_ids, descriptions))]. *)
Fixpoint search_loop (query_embedding : vector)
    (description_embeddings : list vector)
    (l : list (nat * (string * string))) (matches : dict Q)
    : result (dict Q) :=
  match l with
  | [] => Ok matches
  | (idx, (tid, _)) :: rest =>
      e <- list_getitem description_embeddings idx ;;
      let similarity := cosine query_embedding e in
      let normalized_similarity := normalize similarity in
      search_loop query_embedding description_embeddings rest
        (if Qgt_bool normalized_similarity SIMILARITY_THRESHOLD
         then Dict.set matches tid (PyNum.round2 normalized_similarity)
         else matches)
  end.

Definition to_transaction_match (x : string * Q) : TransactionMatch :=
  {| trans_id := fst x; embedding := snd x |}.

(** The part of [search_transactions] that follows the loading of the
    model. *)
Definition search_body (transactions : dict string) (query : string)
    : result (list TransactionMatch * nat) :=
  let query_embedding := encode query in
  let tokens_used := List.length (PyStr.split query) in
  let transaction_ids := Dict.keys transactions in
  descriptions <- mapM (Dict.getitem transactions) transaction_ids ;;
  let description_embeddings := map encode descriptions in
  matches <- search_loop query_embedding description_embeddings
               (enumerate (combine transaction_ids descriptions))
               Dict.empty ;;
  let sorted_matches := sorted_desc (Dict.items matches) in
  let result := map to_transaction_match sorted_matches in
  Ok (result, tokens_used).

(** [search_transactions] once the table is at hand: with an empty table
    it returns before the model is loaded. *)
Definition search_transactions_on (transactions : dict string)
    (query : string) (st : state)
    : result (list TransactionMatch * nat) * state :=
  if Dict.is_empty transactions then (Ok ([], 0%nat), st)
  else (search_body transactions query, get_model st).

Definition search_transactions (fs : files) (st : state) (query : string)
    : result (list TransactionMatch * nat) * state :=
  let (transactions, st1) := DataLoader.get_transactions fs st in
  search_transactions_on transactions query st1.

End WithModel.

End SemanticSearcher.

(* ================================================================== *)
(** ** The normalization on binary64 numbers *)

Module FloatModel.

Import PrimFloat.
Local Open Scope float_scope.

(** [(similarity + 1) / 2], each operation rounded to the nearest
    binary64 number. *)
Definition normalize (similarity : float) : float := (similarity + 1) / 2.

End FloatModel.

(* ================================================================== *)
(** ** The cascade in the words of the specification *)

(** The five stages of section 4.1, each a function from the normalized
    label and the normalized text to an optional score, tried in order.
    [fuzzy] is the fuzzy similarity ratio on the scale from 0 to 1. *)
Module Cascade.

Local Open Scope Q_scope.

Section WithRatio.

Variable token_sort_ratio : string -> string -> Q.

Definition fuzzy (a b : string) : Q := token_sort_ratio a b / 100.

Definition exact_full_match (label text : string) : option Q :=
  if String.eqb label text then Some 1 else None.

Definition exact_token_match (label text : string) : option Q :=
  if existsb (String.eqb label) (PyStr.split text) then Some 0.95 else None.

Definition substring_match (label text : string) : option Q :=
  if PyStr.contains label text
  then Some (0.85 + 0.1 * (inject_Z (Z.of_nat (String.length label))
                          / inject_Z (Z.of_nat (String.length text))))
  else None.

Fixpoint maximum (l : list Q) : option Q :=
  match l with
  | [] => None
  | a :: r =>
      match maximum r with
      | None => Some a
      | Some m => Some (if Qle_bool a m then m else a)
      end
  end.

Definition best_token_fuzzy_match (label text : string) : option Q :=
  match maximum (map (fuzzy label) (PyStr.split text)) with
  | Some m => if Qle_bool 0.70 m then Some m else None
  | None => None
  end.

Definition whole_text_fuzzy_match (label text : string) : option Q :=
  if Qle_bool 0.70 (fuzzy label text) then Some (fuzzy label text) else None.

Fixpoint first_of (stages : list (string -> string -> option Q))
    (label text : string) : option Q :=
  match stages with
  | [] => None
  | stage :: rest =>
      match stage label text with
      | Some s => Some s
      | None => first_of rest label text
      end
  end.

Definition cascade : string -> string -> option Q :=
  first_of [exact_full_match; exact_token_match; substring_match;
            best_token_fuzzy_match; whole_text_fuzzy_match].

End WithRatio.

(** Two optional scores that agree as rational numbers. *)
Definition same_score (a b : option Q) : Prop :=
  match a, b with
  | Some x, Some y => x == y
  | None, None => True
  | _, _ => False
  end.

End Cascade.

(* ================================================================== *)
(** ** Predicates on result lists *)

Local Open Scope Q_scope.

(** Scores in descending order. *)
Definition descending (l : list Q) : Prop :=
  StronglySorted (fun a b => b <= a) l.

(** A score between 0 and 1 with two decimals. *)
Definition valid_score (x : Q) : Prop :=
  0 <= x <= 1 /\ PyNum.two_decimals x.

(** Every returned score is above the threshold. *)
Definition all_above (threshold : Q) (res : list TransactionMatch) : Prop :=
  Forall (fun m => threshold < embedding m) res.

Section Scores.

Variable vector : Type.
Variable encode : string -> vector.
Variable dot : vector -> vector -> Q.
Variable norm : vector -> Q.
Variable SIMILARITY_THRESHOLD : Q.

(** The score of a text for a query, before rounding. *)
Definition score_of (query description : string) : Q :=
  SemanticSearcher.normalize
    (SemanticSearcher.cosine vector dot norm (encode query) (encode description)).

(** What an entry of the dictionary of matches of [search_transactions]
    is: the rounded score of a text of the table that passed the
    threshold. *)
Definition passed (transactions : dict string) (query : string)
    (kv : string * Q) : Prop :=
  exists description,
    Dict.get transactions (fst kv) = Some description /\
    SIMILARITY_THRESHOLD < score_of query description /\
    snd kv = PyNum.round2 (score_of query description).

End Scores.

(** The list that [match_users] makes from the dictionary [matches], and
    the list that [search_transactions] makes from its own. *)
Definition ranked (matches : dict Q) : list UserMatch :=
  map UserMatcher.to_user_match (sorted_desc (Dict.items matches)).

Definition ranked_transactions (matches : dict Q) : list TransactionMatch :=
  map SemanticSearcher.to_transaction_match (sorted_desc (Dict.items matches)).

(** *** Statements about the users of a table *)

Section Statements.

Variable token_sort_ratio : string -> string -> Q.

(** The cascade decides the entry of every user: a user to whom it gives
    the score [s] is in the result with a score of two decimals within
    0.005 of [s], and a user to whom it gives no score is not in the
    result. *)
Definition cascade_decides (transactions users : dict string)
    (transaction_id : string) : Prop :=
  forall text uid name,
    Dict.get transactions transaction_id = Some text ->
    In (uid, name) users ->
    exists res,
      UserMatcher.match_users_on token_sort_ratio transactions users
        transaction_id = Ok (res, List.length res) /\
      match Cascade.cascade token_sort_ratio
              (PyStr.lower (PyStr.strip name)) (PyStr.lower (PyStr.strip text))
      with
      | Some s =>
          exists m, In m res /\ user_id m = uid /\
                    PyNum.two_decimals (match_metric m) /\
                    Qabs (match_metric m - s) <= 1 # 200
      | None => ~ In uid (map user_id res)
      end.

(** The cascade assigns the scores, for a text that is given: with an
    empty normalized text nothing is returned; otherwise the loop leaves
    under the id of every user the score of the cascade, a user with a
    score is returned with a score of two decimals within 0.005 of it, and
    a user without a score is not returned. *)
Definition cascade_assigns (transactions users : dict string)
    (transaction_id text : string) : Prop :=
  (PyStr.lower (PyStr.strip text) = EmptyString ->
   UserMatcher.match_users_on token_sort_ratio transactions users
     transaction_id = Ok ([], 0%nat)) /\
  (PyStr.lower (PyStr.strip text) <> EmptyString ->
   exists res matches,
     UserMatcher.match_users_on token_sort_ratio transactions users
       transaction_id = Ok (res, List.length res) /\
     UserMatcher.match_loop token_sort_ratio
       (PyStr.lower (PyStr.strip text))
       (PyStr.split (PyStr.lower (PyStr.strip text)))
       (Dict.items users) Dict.empty = Ok matches /\
     forall uid name,
       In (uid, name) users ->
       Cascade.same_score (Dict.get matches uid)
         (Cascade.cascade token_sort_ratio (PyStr.lower (PyStr.strip name))
            (PyStr.lower (PyStr.strip text))) /\
       match Cascade.cascade token_sort_ratio
               (PyStr.lower (PyStr.strip name)) (PyStr.lower (PyStr.strip text))
       with
       | Some s =>
           exists m, In m res /\ user_id m = uid /\
                     PyNum.two_decimals (match_metric m) /\
                     Qabs (match_metric m - s) <= 1 # 200
       | None => ~ In uid (map user_id res)
       end).

(** A user whose normalized name is the normalized text is the first
    entry, with score 1. *)
Definition exact_match_first (transactions users : dict string)
    (transaction_id : string) : Prop :=
  forall text uid name,
    Dict.get transactions transaction_id = Some text ->
    In (uid, name) users ->
    PyStr.lower (PyStr.strip name) = PyStr.lower (PyStr.strip text) ->
    exists rest,
      UserMatcher.match_users_on token_sort_ratio transactions users
        transaction_id
      = Ok ({| user_id := uid; match_metric := 1 |} :: rest,
            S (List.length rest)).

(** A user whose normalized name is the normalized text has score 1, every
    entry in front of it has score 1 too, and there is no entry in front of
    it when the cascade gives every user that comes earlier in the table a
    score below 1 or none. *)
Definition exact_match_leads (transactions users : dict string)
    (transaction_id : string) : Prop :=
  forall text uid name,
    Dict.get transactions transaction_id = Some text ->
    In (uid, name) users ->
    PyStr.lower (PyStr.strip name) = PyStr.lower (PyStr.strip text) ->
    exists before after,
      UserMatcher.match_users_on token_sort_ratio transactions users
        transaction_id
      = Ok ((before ++ {| user_id := uid; match_metric := 1 |} :: after)%list,
            List.length
              (before ++ {| user_id := uid; match_metric := 1 |} :: after)%list) /\
      Forall (fun m => match_metric m = 1) before /\
      (forall earlier later,
         users = (earlier ++ (uid, name) :: later)%list ->
         (forall k n s,
            In (k, n) earlier ->
            Cascade.cascade token_sort_ratio (PyStr.lower (PyStr.strip n))
              (PyStr.lower (PyStr.strip text)) = Some s ->
            s < 1) ->
         before = []).

End Statements.

Local Close Scope Q_scope.

(* ================================================================== *)
(** ** Concrete third-party functions for the examples *)

(** A similarity ratio in the style of rapidfuzz: twice the length of a
    longest common subsequence over the sum of the lengths, times 100.
    The length is computed row by row: [prev] is the row for the prefix of
    [a] read so far, [diag] the entry of [prev] to the left and [left] the
    entry of the new row to the left. *)
Fixpoint lcs_row (x : ascii) (b : string) (prev : list nat) (diag left : nat)
    : list nat :=
  match b, prev with
  | String y b', p :: prev' =>
      let v := if Ascii.eqb x y then S diag else Nat.max p left in
      v :: lcs_row x b' prev' p v
  | _, _ => []
  end.

Fixpoint lcs_rows (a b : string) (row : list nat) : list nat :=
  match a with
  | EmptyString => row
  | String x a' => lcs_rows a' b (lcs_row x b row 0 0)
  end.

Definition lcs (a b : string) : nat :=
  last (lcs_rows a b (repeat 0 (String.length b))) 0.

(** The entries of a row after [i] characters of [a]: the entry for the
    prefix of [b] of length [k + j + 1] is at most [i] and at most that
    length. *)
Fixpoint row_bounded (i k : nat) (row : list nat) : Prop :=
  match row with
  | [] => True
  | v :: r => v <= i /\ v <= S k /\ row_bounded i (S k) r
  end.

Definition lcs_ratio (a b : string) : Q :=
  match (String.length a + String.length b)%nat with
  | O => 100%Q
  | S n => Qmake (200 * Z.of_nat (lcs a b)) (Pos.of_succ_nat n)
  end.

(** An embedding into integer vectors of dimension 3 whose Euclidean norm
    is an integer; the text selects the vector by its length. *)
Definition toy_vector : Type := (Z * Z * Z)%type.

Definition toy_table : list toy_vector :=
  [(2, 1, 2); (1, 4, 8); (-8, -4, -1); (4, 4, 7); (1, 2, 2)]%Z.

Definition toy_encode (s : string) : toy_vector :=
  nth (String.length s mod 5) toy_table (2, 1, 2)%Z.

Definition toy_dot (u v : toy_vector) : Q :=
  let '(a, b, c) := u in
  let '(x, y, z) := v in
  inject_Z (a * x + b * y + c * z).

Definition toy_norm (u : toy_vector) : Q :=
  let '(a, b, c) := u in
  inject_Z (Z.sqrt (a * a + b * b + c * c)).

(** No CSV file at all. *)
Definition no_files : files :=
  {| users_csv := None; transactions_csv := None |}.

(** A text of spaces and a user without a name. *)
Definition blank_files : files :=
  {| users_csv := Some [ [("id", "u1"); ("name", EmptyString)] ];
     transactions_csv := Some [ [("id", "t1"); ("description", "  ")] ] |}.

(** Two users with the same name up to case and spaces. *)
Definition twin_files : files :=
  {| users_csv := Some [ [("id", "u1"); ("name", "Emma")];
                         [("id", "u2"); ("name", "emma ")] ];
     transactions_csv := Some [ [("id", "t1"); ("description", "emma")] ] |}.

(** One text whose score for the query "salary" is 0.3024...: the vectors
    are (1, 4, 8) and (-8, -4, -1), of norm 9, with dot product -32. *)
Definition payroll_files : files :=
  {| users_csv := None;
     transactions_csv := Some [ [("id", "t1"); ("description", "payroll")] ] |}.

(** The tables that [DataLoader] reads from the files, from the initial
    state. *)
Definition transactions_of (fs : files) : dict string :=
  fst (DataLoader.get_transactions fs initial_state).

Definition users_of (fs : files) : dict string :=
  fst (DataLoader.get_users fs initial_state).

(** The two CSV files of the examples. *)
Definition example_files : files :=
  {| users_csv := Some [ [("id", "u1"); ("name", "Liam Johnson")];
                         [("id", "u2"); ("name", "Emma")];
                         [("id", "u3"); ("name", "Jon Smith")] ];
     transactions_csv :=
       Some [ [("id", "t1"); ("description", "Payment to Liam Johnson for March")];
              [("id", "t2"); ("description", "payroll")];
              [("id", "t3"); ("description", "salary payment")];
              [("id", "t4"); ("description", "from ema")] ] |}.

(* ================================================================== *)
(** ** Response schemas ([app/models.py]) and endpoints
       ([app/endpoints.py]) *)

Module Models.

Record Task1Response : Type := {
  users : list UserMatch;
  total_number_of_matches : nat
}.

Record Task2Response : Type := {
  transactions : list TransactionMatch;
  total_number_of_tokens_used : nat
}.

End Models.

Module Endpoints.

(** What a handler answers: the body with status 200, the rejection of
    the request by the validation of its parameters (status 422), or the
    [HTTPException] with status 500 and its detail. *)
Inductive response (A : Type) : Type :=
| Http200 (body : A)
| Http422
| Http500 (detail : string).

Arguments Http200 {A} body.
Arguments Http422 {A}.
Arguments Http500 {A} detail.

Section WithProviders.

Variable token_sort_ratio : string -> string -> Q.
Variable vector : Type.
Variable encode : string -> vector.
Variable dot : vector -> vector -> Q.
Variable norm : vector -> Q.
Variable SIMILARITY_THRESHOLD : Q.

(** [str(e)] for an exception. *)
Variable str : py_error -> string.

(** [GET /match-users/{transaction_id}]. *)
Definition match_users (fs : files) (st : state) (transaction_id : string)
    : response Models.Task1Response * state :=
  let (r, st') := UserMatcher.match_users token_sort_ratio fs st transaction_id in
  match r with
  | Ok (matches, total_count) =>
      (Http200 {| Models.users := matches;
                  Models.total_number_of_matches := total_count |}, st')
  | Raise e => (Http500 ("Error matching users: " ++ str e), st')
  end.

(** [GET /search-similar-descriptions]; the parameter is required and has
    [min_length=1], so the handler runs on a query of at least one
    character only. *)
Definition search_similar_descriptions (fs : files) (st : state)
    (query : option string) : response Models.Task2Response * state :=
  match query with
  | None => (Http422, st)
  | Some q =>
      if (String.length q <? 1)%nat then (Http422, st)
      else
        let (r, st') :=
          SemanticSearcher.search_transactions vector encode dot norm
            SIMILARITY_THRESHOLD fs st q in
        match r with
        | Ok (matches, tokens_used) =>
            (Http200 {| Models.transactions := matches;
                        Models.total_number_of_tokens_used := tokens_used |}, st')
        | Raise e => (Http500 ("Error searching descriptions: " ++ str e), st')
        end
  end.

End WithProviders.

End Endpoints.

(* ================================================================== *)
(** ** Auxiliary notions for the further properties *)

(** A string of whitespace only. *)
Fixpoint blank (s : string) : bool :=
  match s with
  | EmptyString => true
  | String c r => PyStr.is_space c && blank r
  end.

(** The normalization of a name and of a description. *)
Definition normalized (s : string) : string := PyStr.lower (PyStr.strip s).


(** The same by recursion on the list: [x] is the head and [y] is in the
    tail, or [x] is in front of [y] in the tail. *)
Fixpoint before {A : Type} (x y : A) (l : list A) : Prop :=
  match l with
  | [] => False
  | h :: t => (h = x /\ In y t) \/ before x y t
  end.

(** A table with every value normalized. *)
Definition normalize_values (d : dict string) : dict string :=
  map (fun kv => (fst kv, normalized (snd kv))) d.


(** The documents that pass the threshold, with their rounded scores, in
    the order of the table. *)
Definition passing {vector : Type} (encode : string -> vector)
    (dot : vector -> vector -> Q) (norm : vector -> Q) (threshold : Q)
    (query : string) (documents : list (string * string)) : dict Q :=
  flat_map
    (fun kv =>
       if Qgt_bool (score_of vector encode dot norm query (snd kv)) threshold
       then [(fst kv, PyNum.round2 (score_of vector encode dot norm query (snd kv)))]
       else []) documents.

(** A CSV file of users in which the id "u1" comes twice. *)
Definition repeated_files : files :=
  {| users_csv := Some [ [("id", "u1"); ("name", "Emma")];
                         [("id", "u2"); ("name", "Liam")];
                         [("id", "u1"); ("name", "Emily")] ];
     transactions_csv := Some [ [("id", "t1"); ("description", "from emily")] ] |}.

(* ================================================================== *)
(** * Properties *)

(** ** Rounding *)

Section Rounding.

Import PyNum.
Local Open Scope Q_scope.

Lemma floor_bounds (x : Q) :
  inject_Z (Qfloor x) <= x /\ x < inject_Z (Qfloor x) + 1.
Proof.
  split; [apply Qfloor_le|].
  pose proof (Qlt_floor x) as H.
  rewrite inject_Z_plus in H. exact H.
Qed.

Lemma round_half_even_cases (x : Q) :
  (round_half_even x = Qfloor x /\ x - inject_Z (Qfloor x) <= 1 # 2) \/
  (round_half_even x = (Qfloor x + 1)%Z /\ 1 # 2 <= x - inject_Z (Qfloor x)).
Proof.
  unfold round_half_even.
  destruct (Qcompare_spec (x - inject_Z (Qfloor x)) (1 # 2)) as [E|L|G].
  - destruct (Z.even (Qfloor x)); [left|right]; split; auto; rewrite E; apply Qle_refl.
  - left; split; auto. apply Qlt_le_weak, L.
  - right; split; auto. apply Qlt_le_weak, G.
Qed.

Lemma round_half_even_near (x : Q) :
  x - (1 # 2) <= inject_Z (round_half_even x) <= x + (1 # 2).
Proof.
  destruct (floor_bounds x) as [Hl Hu].
  destruct (round_half_even_cases x) as [[-> H]|[-> H]].
  - split; lra.
  - rewrite inject_Z_plus. change (inject_Z 1) with 1. split; lra.
Qed.

Lemma round_half_even_comp (x y : Q) :
  x == y -> round_half_even x = round_half_even y.
Proof.
  intros E. unfold round_half_even.
  rewrite (Qfloor_comp _ _ E).
  assert (C : Qcompare (x - inject_Z (Qfloor y)) (1 # 2)
              = Qcompare (y - inject_Z (Qfloor y)) (1 # 2)).
  { apply Qcompare_comp; [rewrite E|]; reflexivity. }
  rewrite C. reflexivity.
Qed.

Lemma round_half_even_mono (x y : Q) :
  x <= y -> (round_half_even x <= round_half_even y)%Z.
Proof.
  intros L.
  pose proof (Qfloor_resp_le _ _ L) as F.
  destruct (Z.eq_dec (Qfloor x) (Qfloor y)) as [E|N].
  - unfold round_half_even. rewrite E.
    destruct (Qcompare_spec (x - inject_Z (Qfloor y)) (1 # 2)) as [E1|L1|G1];
      destruct (Qcompare_spec (y - inject_Z (Qfloor y)) (1 # 2)) as [E2|L2|G2];
      try destruct (Z.even (Qfloor y)); try lia; exfalso; lra.
  - assert (S : (Qfloor x + 1 <= Qfloor y)%Z) by lia.
    destruct (round_half_even_cases x) as [[-> _]|[-> _]];
      destruct (round_half_even_cases y) as [[-> _]|[-> _]]; lia.
Qed.

Lemma round_half_even_inject (k : Z) : round_half_even (inject_Z k) = k.
Proof.
  unfold round_half_even. rewrite Qfloor_Z.
  assert (C : Qcompare (inject_Z k - inject_Z k) (1 # 2) = Lt).
  { rewrite <- Qlt_alt. lra. }
  rewrite C. reflexivity.
Qed.

Lemma round2_value (x : Q) : round2 x == round_half_even (x * 100) # 100.
Proof. unfold round2. apply Qred_correct. Qed.

Lemma round2_comp (x y : Q) : x == y -> round2 x = round2 y.
Proof.
  intros E. unfold round2.
  rewrite (round_half_even_comp (x * 100) (y * 100)); [reflexivity|].
  rewrite E. reflexivity.
Qed.

Lemma Qmake_100_le (a b : Z) : (a <= b)%Z -> a # 100 <= b # 100.
Proof. intros H. unfold Qle; simpl. lia. Qed.

Lemma round2_mono (x y : Q) : x <= y -> round2 x <= round2 y.
Proof.
  intros L. rewrite !round2_value.
  apply Qmake_100_le, round_half_even_mono. lra.
Qed.

Lemma round2_two_decimals (x : Q) : two_decimals (round2 x).
Proof. exists (round_half_even (x * 100)). apply round2_value. Qed.

Lemma Qmake_100_inject (a : Z) : a # 100 == inject_Z a / 100.
Proof. unfold Qeq, Qdiv, Qmult, Qinv, inject_Z; simpl. lia. Qed.

Lemma round2_near (x : Q) : x - (1 # 200) <= round2 x <= x + (1 # 200).
Proof.
  rewrite round2_value, Qmake_100_inject.
  pose proof (round_half_even_near (x * 100)) as [A B].
  split.
  - apply Qle_shift_div_l; lra.
  - apply Qle_shift_div_r; lra.
Qed.

Lemma round2_range (x : Q) : 0 <= x <= 1 -> 0 <= round2 x <= 1.
Proof.
  intros [A B]. split.
  - change 0 with (round2 0). apply round2_mono, A.
  - change 1 with (round2 1). apply round2_mono, B.
Qed.

Lemma round2_one (x : Q) : x == 1 -> round2 x = 1.
Proof. intros E. rewrite (round2_comp x 1 E). reflexivity. Qed.

Lemma round2_ge_threshold (x : Q) : 0.7 <= x -> 0.7 <= round2 x.
Proof.
  intros H. apply Qle_trans with (round2 0.7).
  - vm_compute. discriminate.
  - apply round2_mono, H.
Qed.

Lemma round2_close (x s : Q) : x == s -> Qabs (round2 x - s) <= 1 # 200.
Proof.
  intros E. pose proof (round2_near x) as [A B].
  apply Qabs_Qle_condition. split; lra.
Qed.

End Rounding.

(** ** Dictionaries *)

Section DictFacts.

Context {V : Type}.
Implicit Types (d : dict V) (k : string) (v : V).

Lemma get_set_same d k v : Dict.get (Dict.set d k v) k = Some v.
Proof.
  induction d as [|[k' v'] r IH]; simpl.
  - now rewrite String.eqb_refl.
  - destruct (String.eqb k k') eqn:E; simpl; rewrite E; auto.
Qed.

Lemma get_set_other d k k' v :
  k' <> k -> Dict.get (Dict.set d k v) k' = Dict.get d k'.
Proof.
  intros N. induction d as [|[k0 v0] r IH]; simpl.
  - destruct (String.eqb_spec k' k); congruence.
  - destruct (String.eqb_spec k k0) as [->|N0]; simpl.
    + destruct (String.eqb_spec k' k0); congruence.
    + now rewrite IH.
Qed.

Lemma keys_set_in d k v k' :
  In k' (Dict.keys (Dict.set d k v)) <-> k' = k \/ In k' (Dict.keys d).
Proof.
  unfold Dict.keys. induction d as [|[k0 v0] r IH]; simpl.
  - intuition.
  - destruct (String.eqb_spec k k0) as [->|N0]; simpl.
    + intuition.
    + rewrite IH. intuition.
Qed.

Lemma set_wf d k v : Dict.wf d -> Dict.wf (Dict.set d k v).
Proof.
  unfold Dict.wf, Dict.keys. induction d as [|[k0 v0] r IH]; simpl; intros W.
  - constructor; [intros []|constructor].
  - inversion W as [|? ? Hn Hr]; subst.
    destruct (String.eqb_spec k k0) as [->|N0]; simpl.
    + constructor; assumption.
    + constructor; [|auto].
      intros Hin. apply (keys_set_in r k v k0) in Hin.
      destruct Hin; [congruence|contradiction].
Qed.

Lemma get_in d k v : Dict.get d k = Some v -> In (k, v) d.
Proof.
  induction d as [|[k0 v0] r IH]; simpl; [discriminate|].
  destruct (String.eqb_spec k k0) as [->|N]; intros H.
  - left. congruence.
  - right. auto.
Qed.

Lemma in_get d k v : Dict.wf d -> In (k, v) d -> Dict.get d k = Some v.
Proof.
  unfold Dict.wf, Dict.keys.
  induction d as [|[k0 v0] r IH]; simpl; intros W H; [contradiction|].
  inversion W as [|? ? Hn Hr]; subst.
  destruct H as [E|H].
  - inversion E; subst. now rewrite String.eqb_refl.
  - destruct (String.eqb_spec k k0) as [->|N]; [|auto].
    exfalso. apply Hn. change k0 with (fst (k0, v)). now apply in_map.
Qed.

Lemma get_none_keys d k : Dict.get d k = None <-> ~ In k (Dict.keys d).
Proof.
  unfold Dict.keys. induction d as [|[k0 v0] r IH]; simpl.
  - intuition.
  - destruct (String.eqb_spec k k0) as [->|N].
    + split; [discriminate|]. intros H. exfalso. apply H. now left.
    + rewrite IH. intuition congruence.
Qed.

Lemma get_key_some d k : In k (Dict.keys d) -> exists v, Dict.get d k = Some v.
Proof.
  intros H. destruct (Dict.get d k) eqn:E; [eauto|].
  apply get_none_keys in E. contradiction.
Qed.

Lemma set_forall (P : string * V -> Prop) d k v :
  Forall P d -> P (k, v) -> Forall P (Dict.set d k v).
Proof.
  intros F Pk. induction d as [|[k0 v0] r IH]; simpl.
  - constructor; [assumption|constructor].
  - inversion F; subst.
    destruct (String.eqb_spec k k0) as [->|N]; constructor; auto.
Qed.

Lemma set_fresh (d : dict V) (k : string) (v : V) :
  ~ In k (Dict.keys d) -> Dict.set d k v = (d ++ [(k, v)])%list.
Proof.
  unfold Dict.keys. induction d as [|[k0 v0] r IH]; simpl; intros H; [reflexivity|].
  destruct (String.eqb_spec k k0) as [->|N].
  - exfalso. apply H. now left.
  - rewrite IH; [reflexivity|]. intros Hin. apply H. now right.
Qed.
End DictFacts.

(** ** Sorting *)

Section Sorting.

Context {K : Type}.
Implicit Types (x y : K * Q) (l : list (K * Q)).
Local Open Scope Q_scope.

Lemma Qgt_bool_true (a b : Q) : Qgt_bool a b = true <-> b < a.
Proof.
  unfold Qgt_bool. rewrite negb_true_iff.
  split; intros H.
  - apply Qnot_le_lt. intros L. apply Qle_bool_iff in L. congruence.
  - destruct (Qle_bool a b) eqn:E; [|reflexivity].
    apply Qle_bool_iff in E. lra.
Qed.

Lemma Qgt_bool_false (a b : Q) : Qgt_bool a b = false <-> a <= b.
Proof.
  unfold Qgt_bool. rewrite negb_false_iff. apply Qle_bool_iff.
Qed.

Lemma insert_desc_perm x l : Permutation (x :: l) (insert_desc x l).
Proof.
  induction l as [|y r IH]; simpl; [reflexivity|].
  destruct (Qgt_bool (snd y) (snd x)); [|reflexivity].
  rewrite perm_swap. now constructor.
Qed.

Lemma sorted_desc_perm l : Permutation l (sorted_desc l).
Proof.
  induction l as [|x r IH]; simpl; [reflexivity|].
  rewrite <- insert_desc_perm. now constructor.
Qed.

Lemma insert_desc_descending x l :
  descending (map snd l) -> descending (map snd (insert_desc x l)).
Proof.
  unfold descending.
  induction l as [|y r IH]; simpl; intros S.
  - repeat constructor.
  - inversion S as [|? ? Sr Fy]; subst.
    destruct (Qgt_bool (snd y) (snd x)) eqn:E; simpl.
    + apply Qgt_bool_true in E.
      constructor; [auto|].
      rewrite Forall_forall in *. intros q Hq.
      apply in_map_iff in Hq. destruct Hq as [z [<- Hz]].
      apply (Permutation_in _ (Permutation_sym (insert_desc_perm x r))) in Hz.
      destruct Hz as [<-|Hz]; [lra|].
      apply Fy. now apply in_map.
    + apply Qgt_bool_false in E.
      constructor; [constructor; assumption|].
      constructor; [assumption|].
      rewrite Forall_forall in *. intros q Hq.
      specialize (Fy q Hq). lra.
Qed.

Lemma sorted_desc_descending l : descending (map snd (sorted_desc l)).
Proof.
  induction l as [|x r IH]; simpl.
  - constructor.
  - now apply insert_desc_descending.
Qed.

Lemma sorted_desc_in x l : In x (sorted_desc l) <-> In x l.
Proof.
  split; apply Permutation_in;
    [apply Permutation_sym|]; apply sorted_desc_perm.
Qed.

Lemma sorted_desc_keys_nodup l :
  NoDup (map fst l) -> NoDup (map fst (sorted_desc l)).
Proof.
  apply Permutation_NoDup, Permutation_map, sorted_desc_perm.
Qed.

Lemma descending_map (f : Q -> Q) (l : list Q) :
  (forall a b, a <= b -> f a <= f b) ->
  descending l -> descending (map f l).
Proof.
  unfold descending. intros M.
  induction 1 as [|a r S IH F]; simpl; constructor; auto.
  rewrite Forall_forall in *. intros q Hq.
  apply in_map_iff in Hq. destruct Hq as [z [<- Hz]]. auto.
Qed.

(** In a descending list, what comes before an entry is not smaller. *)
Lemma descending_before (l1 l2 : list Q) (a : Q) :
  descending (l1 ++ a :: l2) -> Forall (fun b => a <= b) l1.
Proof.
  unfold descending. induction l1 as [|b r IH]; simpl; intros S.
  - constructor.
  - inversion S as [|? ? Sr Fb]; subst. constructor; [|auto].
    rewrite Forall_forall in Fb. apply Fb.
    apply in_or_app. right. now left.
Qed.

Lemma insert_desc_head x l :
  (forall y, In y l -> snd y <= snd x) -> insert_desc x l = x :: l.
Proof.
  destruct l as [|y r]; simpl; intros H; [reflexivity|].
  assert (E : Qgt_bool (snd y) (snd x) = false).
  { apply Qgt_bool_false. apply H. now left. }
  now rewrite E.
Qed.

(** An entry whose score is above the scores of the entries in front of it
    and not below the scores of the entries behind it is sorted to the
    front. *)
Lemma sorted_desc_head l1 x l2 :
  (forall y, In y l1 -> snd y < snd x) ->
  (forall y, In y l2 -> snd y <= snd x) ->
  exists rest, sorted_desc (l1 ++ x :: l2) = x :: rest.
Proof.
  intros H1 H2. induction l1 as [|a l1 IH]; simpl.
  - exists (sorted_desc l2). apply insert_desc_head.
    intros y Hy. apply H2. exact (proj1 (sorted_desc_in y l2) Hy).
  - destruct IH as [rest Hr]; [intros y Hy; apply H1; now right|].
    rewrite Hr. simpl.
    assert (E : Qgt_bool (snd x) (snd a) = true).
    { apply Qgt_bool_true. apply H1. now left. }
    rewrite E. eauto.
Qed.
Lemma nodup_app_disjoint {A : Type} (l1 l2 : list A) (a : A) :
  NoDup (l1 ++ l2) -> In a l1 -> In a l2 -> False.
Proof.
  induction l1 as [|b r IH]; simpl; intros N H1 H2; [contradiction|].
  inversion N as [|? ? Hn Nr]; subst.
  destruct H1 as [->|H1]; [|auto].
  apply Hn. apply in_or_app. now right.
Qed.

End Sorting.

(** ** Strings *)

Section StringFacts.

Lemma prefix_length (a b : string) :
  prefix a b = true -> (String.length a <= String.length b)%nat.
Proof.
  revert b. induction a as [|x a IH]; intros b H; simpl; [lia|].
  destruct b as [|y b]; simpl in H; [discriminate|].
  destruct (ascii_dec x y); [|discriminate].
  simpl. apply IH in H. lia.
Qed.

Lemma contains_length (a b : string) :
  PyStr.contains a b = true -> (String.length a <= String.length b)%nat.
Proof.
  induction b as [|y b IH]; cbn [PyStr.contains]; intros H.
  - rewrite orb_false_r in H. now apply prefix_length in H.
  - apply orb_true_iff in H. destruct H as [H|H].
    + now apply prefix_length in H.
    + apply IH in H. simpl. lia.
Qed.

Lemma is_empty_length (s : string) :
  PyStr.is_empty s = false -> (0 < String.length s)%nat.
Proof. destruct s; simpl; [discriminate|lia]. Qed.

Lemma is_empty_true (s : string) : PyStr.is_empty s = true <-> s = EmptyString.
Proof. destruct s; simpl; split; congruence. Qed.

End StringFacts.

(** ** The error monad *)

Section ResultFacts.

Lemma bind_ok {A B : Type} (m : result A) (k : A -> result B) (b : B) :
  bind m k = Ok b -> exists a, m = Ok a /\ k a = Ok b.
Proof. destruct m; simpl; [eauto|discriminate]. Qed.

Lemma truediv_ok (a b : nat) :
  (0 < b)%nat ->
  truediv a b = Ok (Qdiv (inject_Z (Z.of_nat a)) (inject_Z (Z.of_nat b))).
Proof.
  intros H. unfold truediv.
  destruct (Nat.eqb_spec b 0); [lia|reflexivity].
Qed.

Lemma length_ratio_range (a b : nat) :
  (0 < b)%nat -> (a <= b)%nat ->
  (0 <= Qdiv (inject_Z (Z.of_nat a)) (inject_Z (Z.of_nat b)) <= 1)%Q.
Proof.
  intros Hb Hab.
  assert (P : (0 < inject_Z (Z.of_nat b))%Q).
  { change 0%Q with (inject_Z 0). rewrite <- Zlt_Qlt. lia. }
  split.
  - apply Qle_shift_div_l; [exact P|]. rewrite Qmult_0_l.
    change 0%Q with (inject_Z 0). rewrite <- Zle_Qle. lia.
  - apply Qle_shift_div_r; [exact P|]. rewrite Qmult_1_l.
    rewrite <- Zle_Qle. lia.
Qed.

End ResultFacts.

(** ** The loop of [match_users] *)

Section MatcherFacts.

Import UserMatcher.
Local Open Scope Q_scope.

Variable token_sort_ratio : string -> string -> Q.

Local Abbreviation score_user := (score_user token_sort_ratio).
Local Abbreviation match_loop := (match_loop token_sort_ratio).
Local Abbreviation match_users_on := (match_users_on token_sort_ratio).
Local Abbreviation best_token := (best_token token_sort_ratio).

Lemma fuzzy_threshold_value : FUZZY_MATCH_THRESHOLD / 100 == 0.7.
Proof. reflexivity. Qed.

(** With a text that is not empty no strategy raises. *)
Lemma score_user_ok (description : string) (tokens : list string)
    (user_name : string) :
  PyStr.is_empty description = false ->
  exists o, score_user description tokens user_name = Ok o.
Proof.
  intros Hd. unfold UserMatcher.score_user.
  destruct (String.eqb _ description); [eauto|].
  destruct (PyStr.mem _ tokens); [eauto|].
  destruct (PyStr.contains _ description).
  - rewrite truediv_ok by now apply is_empty_length. simpl. eauto.
  - destruct (Qle_bool _ (best_token _ _ _)); [eauto|].
    destruct (Qle_bool _ _); eauto.
Qed.

(** Every score that a strategy gives is at least 0.70. *)
Lemma score_user_lower (description : string) (tokens : list string)
    (user_name : string) (s : Q) :
  score_user description tokens user_name = Ok (Some s) -> 0.7 <= s.
Proof.
  unfold UserMatcher.score_user.
  destruct (String.eqb _ description).
  { intros H; inversion H; subst. lra. }
  destruct (PyStr.mem _ tokens).
  { intros H; inversion H; subst. lra. }
  destruct (PyStr.contains _ description) eqn:C.
  { unfold truediv.
    destruct (Nat.eqb_spec (String.length description) 0) as [|Hn];
      [discriminate|].
    simpl. intros H; inversion H; subst.
    pose proof (contains_length _ _ C) as L.
    assert (Hp : (0 < String.length description)%nat) by lia.
    pose proof (length_ratio_range _ _ Hp L) as [R _].
    lra. }
  destruct (Qle_bool _ (best_token _ tokens 0)) eqn:B.
  { intros H; inversion H; subst. apply Qle_bool_iff in B.
    rewrite fuzzy_threshold_value in B. exact B. }
  destruct (Qle_bool _ (token_sort_ratio _ _ / 100)) eqn:F; [|discriminate].
  intros H; inversion H; subst. apply Qle_bool_iff in F.
  rewrite fuzzy_threshold_value in F. exact F.
Qed.

Lemma best_token_upper (name : string) (tokens : list string) (b : Q) :
  (forall a c, token_sort_ratio a c <= 100) ->
  b <= 1 -> best_token name tokens b <= 1.
Proof.
  intros R. revert b. induction tokens as [|t r IH]; simpl; intros b Hb; [exact Hb|].
  apply IH. destruct (Qgt_bool _ b); [|exact Hb].
  specialize (R name t). apply Qle_shift_div_r; lra.
Qed.

(** No score exceeds 1 when the ratio does not exceed 100. *)
Lemma score_user_upper (description : string) (tokens : list string)
    (user_name : string) (s : Q) :
  (forall a c, token_sort_ratio a c <= 100) ->
  score_user description tokens user_name = Ok (Some s) -> s <= 1.
Proof.
  intros R. unfold UserMatcher.score_user.
  destruct (String.eqb _ description).
  { intros H; inversion H; subst. lra. }
  destruct (PyStr.mem _ tokens).
  { intros H; inversion H; subst. lra. }
  destruct (PyStr.contains _ description) eqn:C.
  { unfold truediv.
    destruct (Nat.eqb_spec (String.length description) 0) as [|Hn];
      [discriminate|].
    simpl. intros H; inversion H; subst.
    pose proof (contains_length _ _ C) as L.
    assert (Hp : (0 < String.length description)%nat) by lia.
    pose proof (length_ratio_range _ _ Hp L) as [_ U].
    lra. }
  destruct (Qle_bool _ (best_token _ tokens 0)) eqn:B.
  { intros H; inversion H; subst. apply best_token_upper; [exact R|lra]. }
  destruct (Qle_bool _ (token_sort_ratio _ _ / 100)) eqn:F; [|discriminate].
  intros H; inversion H; subst.
  specialize (R (PyStr.lower (PyStr.strip user_name)) description).
  apply Qle_shift_div_r; lra.
Qed.

Lemma match_loop_ok (description : string) (tokens : list string)
    (users : list (string * string)) (matches : dict Q) :
  PyStr.is_empty description = false ->
  exists m, match_loop description tokens users matches = Ok m.
Proof.
  intros Hd. revert matches.
  induction users as [|[uid name] rest IH]; intros matches; simpl; [eauto|].
  destruct (score_user_ok description tokens name Hd) as [o ->]. simpl.
  apply IH.
Qed.

(** What the loop leaves under a key: the score of the user with that
    id, or what was there before. *)
Lemma match_loop_get (description : string) (tokens : list string)
    (users : list (string * string)) (matches m : dict Q) (k : string) :
  Dict.wf users ->
  match_loop description tokens users matches = Ok m ->
  Dict.get m k =
    match Dict.get users k with
    | Some name =>
        match score_user description tokens name with
        | Ok (Some s) => Some s
        | _ => Dict.get matches k
        end
    | None => Dict.get matches k
    end.
Proof.
  revert matches.
  induction users as [|[uid name] rest IH]; intros matches W H; simpl in *.
  - now inversion H.
  - apply bind_ok in H. destruct H as [o [Ho H]].
    inversion W as [|? ? Hn Wr]; subst.
    rewrite (IH _ Wr H).
    destruct (String.eqb_spec k uid) as [->|N].
    + assert (G : Dict.get rest uid = None) by now apply get_none_keys.
      rewrite G, Ho. destruct o; [apply get_set_same|reflexivity].
    + destruct (Dict.get rest k) as [name'|].
      * destruct (score_user description tokens name') as [[s'|]|];
          try reflexivity; destruct o; auto using get_set_other.
      * destruct o; auto using get_set_other.
Qed.

(** The loop keeps the dictionary well formed, and every entry it adds
    is the score of some user. *)
Lemma match_loop_inv (P : string * Q -> Prop) (description : string)
    (tokens : list string) (users : list (string * string))
    (matches m : dict Q) :
  (forall uid name s, In (uid, name) users ->
     score_user description tokens name = Ok (Some s) -> P (uid, s)) ->
  match_loop description tokens users matches = Ok m ->
  Dict.wf matches -> Forall P matches ->
  Dict.wf m /\ Forall P m.
Proof.
  revert matches.
  induction users as [|[uid name] rest IH]; intros matches HP H W F; simpl in *.
  - inversion H; subst. auto.
  - apply bind_ok in H. destruct H as [o [Ho H]].
    apply (IH _ (fun u n s Hin => HP u n s (or_intror Hin)) H).
    + destruct o; [apply set_wf|]; assumption.
    + destruct o as [s|]; [|assumption].
      apply set_forall; [assumption|].
      eapply HP; [left; reflexivity|exact Ho].
Qed.

Lemma match_loop_app (description : string) (tokens : list string)
    (u1 u2 : list (string * string)) (matches : dict Q) :
  match_loop description tokens (u1 ++ u2) matches
  = (m1 <- match_loop description tokens u1 matches ;;
     match_loop description tokens u2 m1).
Proof.
  revert matches. induction u1 as [|[uid name] r IH]; intros matches; simpl.
  - reflexivity.
  - destruct (score_user description tokens name) as [o|e]; simpl; [|reflexivity].
    apply IH.
Qed.

(** On users whose ids are new the loop only appends: what was in the
    dictionary stays in front, and what is added are scores of these
    users. *)
Lemma match_loop_extends (description : string) (tokens : list string)
    (users : list (string * string)) (matches m : dict Q) :
  Dict.wf users ->
  (forall k, In k (Dict.keys users) -> ~ In k (Dict.keys matches)) ->
  match_loop description tokens users matches = Ok m ->
  exists extra,
    m = (matches ++ extra)%list /\
    Forall (fun kv => exists name,
              In (fst kv, name) users /\
              score_user description tokens name = Ok (Some (snd kv))) extra.
Proof.
  revert matches.
  induction users as [|[uid name] rest IH]; intros matches W D H; simpl in H.
  - inversion H; subst. exists []. rewrite app_nil_r. split; constructor.
  - apply bind_ok in H. destruct H as [o [Ho H]].
    inversion W as [|? ? Hn Wr]; subst.
    destruct o as [s|].
    + rewrite set_fresh in H by (apply D; now left).
      destruct (IH (matches ++ [(uid, s)])%list Wr) as [extra [E F]]; [|exact H|].
      * intros k Hk Hin. unfold Dict.keys in Hin.
        rewrite map_app in Hin. apply in_app_or in Hin.
        destruct Hin as [Hin|[<-|[]]].
        -- apply (D k); [now right|exact Hin].
        -- apply Hn. exact Hk.
      * exists ((uid, s) :: extra). rewrite <- app_assoc in E. split; [exact E|].
        constructor.
        -- exists name. split; [now left|exact Ho].
        -- rewrite Forall_forall in *. intros kv Hkv.
           destruct (F kv Hkv) as [n [Hin Hs]]. exists n. split; [now right|exact Hs].
    + destruct (IH matches Wr) as [extra [E F]]; [|exact H|].
      * intros k Hk. apply D. now right.
      * exists extra. split; [exact E|].
        rewrite Forall_forall in *. intros kv Hkv.
        destruct (F kv Hkv) as [n [Hin Hs]]. exists n. split; [now right|exact Hs].
Qed.
End MatcherFacts.

(** ** The result of [match_users] *)

Section MatchUsersFacts.

Import UserMatcher.
Local Open Scope Q_scope.

Variable token_sort_ratio : string -> string -> Q.

Local Abbreviation score_user := (score_user token_sort_ratio).
Local Abbreviation match_loop := (match_loop token_sort_ratio).
Local Abbreviation match_users_on := (match_users_on token_sort_ratio).
Local Abbreviation match_users := (match_users token_sort_ratio).

Lemma ranked_ids (m : dict Q) :
  map user_id (ranked m) = map fst (sorted_desc m).
Proof. unfold ranked, Dict.items. rewrite map_map. reflexivity. Qed.

Lemma ranked_metrics (m : dict Q) :
  map match_metric (ranked m) = map PyNum.round2 (map snd (sorted_desc m)).
Proof. unfold ranked, Dict.items. rewrite !map_map. reflexivity. Qed.

(** The run that reaches the loop. *)
Lemma match_users_on_found (transactions users : dict string)
    (transaction_id text : string) :
  Dict.get transactions transaction_id = Some text ->
  PyStr.is_empty (PyStr.lower (PyStr.strip text)) = false ->
  Dict.is_empty users = false ->
  exists m,
    match_loop (PyStr.lower (PyStr.strip text))
      (PyStr.split (PyStr.lower (PyStr.strip text))) users Dict.empty = Ok m /\
    match_users_on transactions users transaction_id
    = Ok (ranked m, List.length (ranked m)).
Proof.
  intros G E U. unfold UserMatcher.match_users_on, Dict.contains, Dict.getitem.
  rewrite G. simpl. rewrite E, U. simpl.
  destruct (match_loop_ok token_sort_ratio _
              (PyStr.split (PyStr.lower (PyStr.strip text))) users Dict.empty E)
    as [m Hm].
  exists m. split; [exact Hm|].
  unfold Dict.items in *. rewrite Hm. reflexivity.
Qed.

(** Every run returns a ranked list of scores of users, under a well
    formed dictionary; no run raises. *)
Lemma match_users_on_shape (transactions users : dict string)
    (transaction_id : string) :
  exists m,
    match_users_on transactions users transaction_id
    = Ok (ranked m, List.length (ranked m)) /\
    Dict.wf m /\
    Forall (fun kv => exists d tokens name,
              score_user d tokens name = Ok (Some (snd kv))) m.
Proof.
  assert (Hnil : exists m : dict Q,
    @Ok (list UserMatch * nat) ([], 0%nat) = Ok (ranked m, List.length (ranked m)) /\
    Dict.wf m /\
    Forall (fun kv => exists d tokens name,
              score_user d tokens name = Ok (Some (snd kv))) m).
  { exists []. split; [reflexivity|]. split; [apply NoDup_nil|apply Forall_nil]. }
  destruct (Dict.get transactions transaction_id) as [text|] eqn:G.
  2:{ unfold UserMatcher.match_users_on, Dict.contains. rewrite G. exact Hnil. }
  destruct (PyStr.is_empty (PyStr.lower (PyStr.strip text))) eqn:E.
  { unfold UserMatcher.match_users_on, Dict.contains, Dict.getitem.
    rewrite G. simpl. rewrite E. exact Hnil. }
  destruct (Dict.is_empty users) eqn:U.
  { unfold UserMatcher.match_users_on, Dict.contains, Dict.getitem.
    rewrite G. simpl. rewrite E, U. exact Hnil. }
  destruct (match_users_on_found _ _ _ _ G E U) as [m [Hm Hr]].
  exists m. split; [exact Hr|].
  apply (match_loop_inv token_sort_ratio
           (fun kv => exists d tokens name,
              score_user d tokens name = Ok (Some (snd kv)))
           _ _ _ _ _ (fun u n s _ Hs => ex_intro _ _ (ex_intro _ _ (ex_intro _ n Hs))) Hm).
  - apply NoDup_nil.
  - apply Forall_nil.
Qed.

Lemma match_users_fst (fs : files) (st : state) (transaction_id : string) :
  fst (match_users fs st transaction_id)
  = match_users_on
      (fst (DataLoader.get_transactions fs st))
      (fst (DataLoader.get_users fs (snd (DataLoader.get_transactions fs st))))
      transaction_id.
Proof.
  unfold UserMatcher.match_users.
  destruct (DataLoader.get_transactions fs st) as [t st1]. simpl.
  destruct (DataLoader.get_users fs st1) as [u st2]. reflexivity.
Qed.

(** The scores of a ranked list descend, before and after rounding. *)
Lemma ranked_descending (m : dict Q) :
  descending (map match_metric (ranked m)).
Proof.
  rewrite ranked_metrics.
  apply descending_map; [apply round2_mono|apply sorted_desc_descending].
Qed.

Lemma ranked_nodup (m : dict Q) : Dict.wf m -> NoDup (map user_id (ranked m)).
Proof. intros W. rewrite ranked_ids. now apply sorted_desc_keys_nodup. Qed.

Lemma ranked_forall (P : UserMatch -> Prop) (m : dict Q) :
  Forall (fun kv => P (to_user_match kv)) m -> Forall P (ranked m).
Proof.
  intros F. unfold ranked, Dict.items.
  rewrite Forall_forall in *. intros x Hx.
  apply in_map_iff in Hx. destruct Hx as [kv [<- Hkv]].
  apply F. apply sorted_desc_in. exact Hkv.
Qed.

End MatchUsersFacts.

(** ** The loop and the result of [search_transactions] *)

Section SearchFacts.

Import SemanticSearcher.
Local Open Scope Q_scope.

Variable vector : Type.
Variable encode : string -> vector.
Variable dot : vector -> vector -> Q.
Variable norm : vector -> Q.
Variable SIMILARITY_THRESHOLD : Q.

Local Abbreviation cosine := (cosine vector dot norm).
Local Abbreviation search_loop :=
  (search_loop vector dot norm SIMILARITY_THRESHOLD).
Local Abbreviation search_transactions_on :=
  (search_transactions_on vector encode dot norm SIMILARITY_THRESHOLD).
Local Abbreviation search_transactions :=
  (search_transactions vector encode dot norm SIMILARITY_THRESHOLD).
Local Abbreviation score_of := (score_of vector encode dot norm).
Local Abbreviation passed :=
  (passed vector encode dot norm SIMILARITY_THRESHOLD).

(** [transactions[tid]] for the keys of [transactions] does not raise. *)
Lemma descriptions_ok (transactions : dict string) (ids : list string) :
  (forall k, In k ids -> In k (Dict.keys transactions)) ->
  exists descriptions,
    mapM (Dict.getitem transactions) ids = Ok descriptions /\
    Forall2 (fun k d => Dict.get transactions k = Some d) ids descriptions.
Proof.
  induction ids as [|k r IH]; intros Hin; simpl.
  - exists []. split; [reflexivity|constructor].
  - destruct (get_key_some transactions k (Hin k (or_introl eq_refl))) as [d Hd].
    destruct (IH (fun k' H => Hin k' (or_intror H))) as [ds [Hm Hf]].
    exists (d :: ds). unfold Dict.getitem at 1. rewrite Hd. simpl.
    rewrite Hm. simpl. split; [reflexivity|now constructor].
Qed.

(** The loop does not raise: the index of a text is the index of its
    embedding.  It keeps the dictionary well formed, and every entry it
    adds is the rounded score of a text that passed the threshold. *)
Lemma search_loop_inv (P : string * Q -> Prop) (query : string)
    (ids descriptions : list string) :
  (forall tid d, In (tid, d) (combine ids descriptions) ->
     SIMILARITY_THRESHOLD < score_of query d ->
     P (tid, PyNum.round2 (score_of query d))) ->
  forall (done : list vector) (matches : dict Q),
    Dict.wf matches -> Forall P matches ->
    exists m,
      search_loop (encode query) (done ++ map encode descriptions)%list
        (enumerate_from (List.length done) (combine ids descriptions))
        matches = Ok m /\
      Dict.wf m /\ Forall P m.
Proof.
  revert descriptions.
  induction ids as [|tid ids IH]; intros descriptions HP done matches W F.
  - simpl. eauto.
  - destruct descriptions as [|d ds]; [simpl; eauto|].
    cbn [combine enumerate_from map SemanticSearcher.search_loop].
    unfold list_getitem.
    rewrite nth_error_app2 by lia. rewrite Nat.sub_diag. cbn [nth_error bind].
    assert (Hd : (done ++ encode d :: map encode ds
                  = (done ++ [encode d]) ++ map encode ds)%list)
      by now rewrite <- app_assoc.
    assert (Hl : S (List.length done) = List.length (done ++ [encode d])%list)
      by (rewrite length_app; simpl; lia).
    rewrite Hd, Hl.
    apply IH.
    + intros t d' Hin. apply HP. right. exact Hin.
    + destruct (Qgt_bool _ _); [apply set_wf|]; assumption.
    + destruct (Qgt_bool _ _) eqn:G; [|assumption].
      apply set_forall; [assumption|].
      apply HP; [left; reflexivity|].
      apply Qgt_bool_true in G. exact G.
Qed.

Lemma combine_forall2 {A B : Type} (R : A -> B -> Prop) (l : list A)
    (l' : list B) (a : A) (b : B) :
  Forall2 R l l' -> In (a, b) (combine l l') -> R a b.
Proof.
  induction 1 as [|x y r r' Hxy _ IH]; simpl; [contradiction|].
  intros [E|H]; [inversion E; subst; assumption|auto].
Qed.

(** The run on a table that is not empty. *)
Lemma search_transactions_on_shape (transactions : dict string)
    (query : string) (st : state) :
  Dict.is_empty transactions = false ->
  exists m,
    search_transactions_on transactions query st
    = (Ok (ranked_transactions m, List.length (PyStr.split query)),
       get_model st) /\
    Dict.wf m /\ Forall (passed transactions query) m.
Proof.
  intros E. unfold SemanticSearcher.search_transactions_on. rewrite E.
  unfold SemanticSearcher.search_body.
  destruct (descriptions_ok transactions (Dict.keys transactions)
              (fun k H => H)) as [ds [Hm Hf]].
  rewrite Hm. cbn [bind].
  destruct (search_loop_inv (passed transactions query) query
              (Dict.keys transactions) ds) with (done := @nil vector)
                                                (matches := @Dict.empty Q)
    as [m [Hl [W F]]].
  - intros tid d Hin Ht. exists d. simpl.
    split; [|split; [exact Ht|reflexivity]].
    exact (combine_forall2 _ _ _ _ _ Hf Hin).
  - apply NoDup_nil.
  - apply Forall_nil.
  - exists m. simpl in Hl. unfold enumerate. rewrite Hl. cbn [bind].
    split; [reflexivity|]. split; assumption.
Qed.

Lemma search_transactions_on_empty (transactions : dict string)
    (query : string) (st : state) :
  Dict.is_empty transactions = true ->
  search_transactions_on transactions query st = (Ok ([], 0%nat), st).
Proof.
  intros E. unfold SemanticSearcher.search_transactions_on. now rewrite E.
Qed.

Lemma ranked_transactions_ids (m : dict Q) :
  map trans_id (ranked_transactions m) = map fst (sorted_desc m).
Proof. unfold ranked_transactions, Dict.items. rewrite map_map. reflexivity. Qed.

Lemma ranked_transactions_scores (m : dict Q) :
  map embedding (ranked_transactions m) = map snd (sorted_desc m).
Proof. unfold ranked_transactions, Dict.items. rewrite map_map. reflexivity. Qed.


(** The cosine lies between -1 and 1 when the norm is not negative and
    the inequality of Cauchy and Schwarz holds. *)
Lemma cosine_range (u v : vector) :
  0 <= norm u -> 0 <= norm v -> Qabs (dot u v) <= norm u * norm v ->
  -1 <= cosine u v <= 1.
Proof.
  intros Hu Hv Hc. unfold SemanticSearcher.cosine.
  apply Qabs_Qle_condition in Hc. destruct Hc as [Hl Hr].
  assert (Hp : 0 <= norm u * norm v) by (apply Qmult_le_0_compat; assumption).
  assert (He : 0 < epsilon) by reflexivity.
  assert (Hd : 0 < norm u * norm v + epsilon) by lra.
  split.
  - apply Qle_shift_div_l; [exact Hd|]. lra.
  - apply Qle_shift_div_r; [exact Hd|]. lra.
Qed.

Lemma normalize_range (c : Q) : -1 <= c <= 1 -> 0 <= normalize c <= 1.
Proof.
  intros [A B]. unfold normalize. split.
  - apply Qle_shift_div_l; lra.
  - apply Qle_shift_div_r; lra.
Qed.

End SearchFacts.

(** ** The loop body and the cascade of the specification *)

Section CascadeFacts.

Import UserMatcher Cascade.
Local Open Scope Q_scope.

Variable token_sort_ratio : string -> string -> Q.

Local Abbreviation score_user := (score_user token_sort_ratio).
Local Abbreviation best_token := (best_token token_sort_ratio).
Local Abbreviation fuzzy := (fuzzy token_sort_ratio).
Local Abbreviation cascade := (cascade token_sort_ratio).

(** The running best score is the start value or the score of a token,
    and it is below no token score and not below the start value. *)
Lemma best_token_bounds (name : string) (tokens : list string) (b : Q) :
  b <= best_token name tokens b /\
  (forall t, In t tokens -> fuzzy name t <= best_token name tokens b) /\
  (best_token name tokens b = b \/
   exists t, In t tokens /\ best_token name tokens b = fuzzy name t).
Proof.
  revert b. induction tokens as [|t r IH]; intros b; simpl.
  - split; [lra|]. split; [contradiction|now left].
  - fold (fuzzy name t).
    destruct (Qgt_bool (fuzzy name t) b) eqn:G.
    + apply Qgt_bool_true in G.
      destruct (IH (fuzzy name t)) as [A [B C]].
      split; [lra|]. split.
      * intros t' [<-|H]; auto.
      * right. destruct C as [C|[t' [H C]]]; eauto.
    + apply Qgt_bool_false in G.
      destruct (IH b) as [A [B C]].
      split; [exact A|]. split.
      * intros t' [<-|H]; [lra|auto].
      * destruct C as [C|[t' [H C]]]; eauto.
Qed.

Lemma maximum_bounds (l : list Q) :
  match maximum l with
  | None => l = []
  | Some m => In m l /\ forall q, In q l -> q <= m
  end.
Proof.
  induction l as [|a r IH]; simpl; [reflexivity|].
  destruct (maximum r) as [m|].
  - destruct IH as [Hin Hle].
    destruct (Qle_bool a m) eqn:E.
    + apply Qle_bool_iff in E. split; [now right|].
      intros q [<-|H]; auto.
    + assert (L : m < a).
      { apply Qnot_le_lt. intros L. apply Qle_bool_iff in L. congruence. }
      split; [now left|].
      intros q [<-|H]; [lra|]. specialize (Hle q H). lra.
  - subst r. split; [now left|]. intros q [<-|[]]. lra.
Qed.

(** Strategy 4 and the fourth stage agree. *)
Lemma best_token_stage (name text : string) :
  same_score
    (let b := best_token name (PyStr.split text) 0 in
     if Qle_bool (FUZZY_MATCH_THRESHOLD / 100) b then Some b else None)
    (best_token_fuzzy_match token_sort_ratio name text).
Proof.
  unfold best_token_fuzzy_match. cbv zeta.
  set (tokens := PyStr.split text).
  destruct (best_token_bounds name tokens 0) as [A [B C]].
  pose proof (maximum_bounds (map (fuzzy name) tokens)) as M.
  destruct (Qle_bool (FUZZY_MATCH_THRESHOLD / 100) (best_token name tokens 0)) eqn:E.
  - apply Qle_bool_iff in E. rewrite fuzzy_threshold_value in E.
    destruct C as [C|[t [Ht C]]]; [rewrite C in E; lra|].
    destruct (maximum (map (fuzzy name) tokens)) as [m|].
    + destruct M as [Hin Hle].
      apply in_map_iff in Hin. destruct Hin as [t' [<- Ht']].
      assert (L1 : best_token name tokens 0 <= fuzzy name t').
      { rewrite C. apply Hle. now apply in_map. }
      pose proof (B t' Ht') as L2.
      assert (L3 : 0.70 <= fuzzy name t') by lra.
      apply Qle_bool_iff in L3. rewrite L3. simpl. lra.
    + apply map_eq_nil in M. rewrite M in Ht. contradiction.
  - destruct (maximum (map (fuzzy name) tokens)) as [m|]; [|exact I].
    destruct M as [Hin Hle].
    apply in_map_iff in Hin. destruct Hin as [t' [<- Ht']].
    destruct (Qle_bool 0.70 (fuzzy name t')) eqn:E'; [|exact I].
    apply Qle_bool_iff in E'. pose proof (B t' Ht') as L2.
    assert (L : FUZZY_MATCH_THRESHOLD / 100 <= best_token name tokens 0).
    { rewrite fuzzy_threshold_value. lra. }
    apply Qle_bool_iff in L. congruence.
Qed.

(** The loop body computes the cascade, for a text that is not empty. *)
Lemma score_user_cascade (description user_name : string) :
  PyStr.is_empty description = false ->
  exists o,
    score_user description (PyStr.split description) user_name = Ok o /\
    same_score o (cascade (PyStr.lower (PyStr.strip user_name)) description).
Proof.
  intros Hd. unfold UserMatcher.score_user, Cascade.cascade, first_of.
  set (label := PyStr.lower (PyStr.strip user_name)).
  unfold exact_full_match.
  destruct (String.eqb label description).
  { eexists; split; [reflexivity|]. simpl. reflexivity. }
  unfold exact_token_match, PyStr.mem.
  destruct (existsb (String.eqb label) (PyStr.split description)).
  { eexists; split; [reflexivity|]. simpl. reflexivity. }
  unfold substring_match.
  destruct (PyStr.contains label description).
  { rewrite truediv_ok by now apply is_empty_length.
    eexists; split; [reflexivity|]. simpl. ring. }
  pose proof (best_token_stage label description) as S4. cbv zeta in S4.
  destruct (Qle_bool (FUZZY_MATCH_THRESHOLD / 100)
              (best_token label (PyStr.split description) 0)).
  { eexists; split; [reflexivity|].
    destruct (best_token_fuzzy_match token_sort_ratio label description);
      [exact S4|contradiction]. }
  destruct (best_token_fuzzy_match token_sort_ratio label description);
    [contradiction|].
  unfold whole_text_fuzzy_match. fold (fuzzy label description).
  assert (T : Qle_bool (FUZZY_MATCH_THRESHOLD / 100) (fuzzy label description)
              = Qle_bool 0.70 (fuzzy label description)).
  { apply eq_true_iff_eq. rewrite !Qle_bool_iff, fuzzy_threshold_value.
    split; intros; lra. }
  rewrite T.
  destruct (Qle_bool 0.70 (fuzzy label description));
    eexists; (split; [reflexivity|]); simpl; [reflexivity|exact I].
Qed.

End CascadeFacts.

(** ** The functions of the examples meet what is assumed of the library *)

Section ExampleFacts.

Lemma lcs_row_bounded (x : ascii) (b : string) (prev : list nat)
    (i k diag left : nat) :
  row_bounded i k prev ->
  diag <= i -> diag <= k -> left <= S i -> left <= k ->
  row_bounded (S i) k (lcs_row x b prev diag left).
Proof.
  revert prev k diag left.
  induction b as [|y b IH]; intros prev k diag left Hp D1 D2 L1 L2; simpl.
  - exact I.
  - destruct prev as [|p prev]; simpl; [exact I|].
    destruct Hp as [P1 [P2 Hp]].
    assert (V : (if Ascii.eqb x y then S diag else Nat.max p left) <= S i /\
                (if Ascii.eqb x y then S diag else Nat.max p left) <= S k)
      by (destruct (Ascii.eqb x y); lia).
    destruct V as [V1 V2].
    split; [exact V1|]. split; [exact V2|].
    apply IH; auto; lia.
Qed.

Lemma lcs_row_length (x : ascii) (b : string) (prev : list nat)
    (diag left : nat) :
  List.length (lcs_row x b prev diag left) <= List.length prev.
Proof.
  revert prev diag left.
  induction b as [|y b IH]; intros prev diag left; simpl; [lia|].
  destruct prev as [|p prev]; simpl; [lia|].
  specialize (IH prev p (if Ascii.eqb x y then S diag else Nat.max p left)).
  lia.
Qed.

Lemma lcs_rows_bounded (a b : string) (row : list nat) (i : nat) :
  row_bounded i 0 row ->
  row_bounded (i + String.length a) 0 (lcs_rows a b row) /\
  List.length (lcs_rows a b row) <= List.length row.
Proof.
  revert row i. induction a as [|x a IH]; intros row i Hr; simpl.
  - rewrite Nat.add_0_r. split; [exact Hr|lia].
  - destruct (IH (lcs_row x b row 0 0) (S i)) as [A B].
    + apply lcs_row_bounded; auto; lia.
    + rewrite Nat.add_succ_r. split; [exact A|].
      pose proof (lcs_row_length x b row 0 0). lia.
Qed.

Lemma row_bounded_last (i k : nat) (row : list nat) :
  row_bounded i k row ->
  last row 0 <= i /\ last row 0 <= k + List.length row.
Proof.
  revert k. induction row as [|v r IH]; intros k H.
  - simpl. lia.
  - destruct H as [H1 [H2 H3]]. destruct r as [|w r'].
    + simpl. lia.
    + change (last (v :: w :: r') 0) with (last (w :: r') 0).
      destruct (IH (S k) H3) as [A B]. simpl List.length in *. lia.
Qed.

Lemma repeat_bounded (n k : nat) : row_bounded 0 k (repeat 0 n).
Proof.
  revert k. induction n as [|n IH]; intros k; simpl; [exact I|].
  split; [lia|]. split; [lia|apply IH].
Qed.

Lemma lcs_le (a b : string) :
  (lcs a b <= String.length a /\ lcs a b <= String.length b)%nat.
Proof.
  unfold lcs.
  destruct (lcs_rows_bounded a b (repeat 0 (String.length b)) 0
              (repeat_bounded _ 0)) as [A B].
  destruct (row_bounded_last _ _ _ A) as [C D].
  rewrite repeat_length in B. simpl in C. lia.
Qed.

Lemma lcs_ratio_range (a b : string) : (0 <= lcs_ratio a b <= 100)%Q.
Proof.
  unfold lcs_ratio. destruct (lcs_le a b) as [A B].
  destruct (String.length a + String.length b)%nat as [|n] eqn:E.
  - split; discriminate.
  - unfold Qle; cbn [Qnum Qden]. rewrite Zpos_P_of_succ_nat. split; lia.
Qed.

Lemma toy_encode_cases (s : string) : In (toy_encode s) toy_table.
Proof.
  unfold toy_encode.
  assert (H : (String.length s mod 5 < 5)%nat) by (apply Nat.mod_upper_bound; lia).
  destruct (String.length s mod 5)%nat as [|[|[|[|[|n]]]]]; simpl; auto 10.
  lia.
Qed.

Lemma toy_norm_nonneg (s : string) : (0 <= toy_norm (toy_encode s))%Q.
Proof.
  pose proof (toy_encode_cases s) as H. simpl in H.
  repeat (destruct H as [<-|H]; [discriminate|]). contradiction.
Qed.

Lemma toy_cauchy_schwarz (s t : string) :
  (Qabs (toy_dot (toy_encode s) (toy_encode t))
   <= toy_norm (toy_encode s) * toy_norm (toy_encode t))%Q.
Proof.
  pose proof (toy_encode_cases s) as Hs.
  pose proof (toy_encode_cases t) as Ht.
  simpl in Hs, Ht.
  repeat (destruct Hs as [<-|Hs]; [|]);
    try contradiction;
    repeat (destruct Ht as [<-|Ht]; [discriminate|]); contradiction.
Qed.

End ExampleFacts.

(** ** The caches of [DataLoader] *)

Section LoaderFacts.

Import DataLoader.

Lemma get_users_transactions_cache (fs : files) (st : state) :
  transactions_cache (snd (get_users fs st)) = transactions_cache st.
Proof. unfold get_users. destruct (users_cache st); reflexivity. Qed.

Lemma get_transactions_cached (fs : files) (st : state) :
  transactions_cache (snd (get_transactions fs st))
  = Some (fst (get_transactions fs st)).
Proof.
  unfold get_transactions.
  destruct (transactions_cache st) eqn:E; simpl; [exact E|reflexivity].
Qed.

Lemma get_transactions_hit (fs : files) (st : state) (d : dict string) :
  transactions_cache st = Some d -> get_transactions fs st = (d, st).
Proof. intros E. unfold get_transactions. now rewrite E. Qed.

Lemma get_users_cached (fs : files) (st : state) :
  users_cache (snd (get_users fs st)) = Some (fst (get_users fs st)).
Proof.
  unfold get_users.
  destruct (users_cache st) eqn:E; simpl; [exact E|reflexivity].
Qed.

Lemma get_users_hit (fs : files) (st : state) (d : dict string) :
  users_cache st = Some d -> get_users fs st = (d, st).
Proof. intros E. unfold get_users. now rewrite E. Qed.

(** The tables that [DataLoader] builds are well formed. *)
Lemma load_rows_wf (key value : string) (rows : list row) (cache : dict string) :
  Dict.wf cache -> Dict.wf (load_rows key value rows cache).
Proof.
  revert cache. induction rows as [|r rest IH]; intros cache W; simpl; [exact W|].
  apply IH.
  destruct (negb (Dict.is_empty r) && Dict.contains r key && Dict.contains r value);
    [|exact W].
  destruct (Dict.get r key); [|exact W].
  destruct (Dict.get r value); [|exact W].
  now apply set_wf.
Qed.

Lemma load_wf (key value : string) (file : option (list row)) :
  Dict.wf (load key value file).
Proof.
  destruct file; simpl; [apply load_rows_wf|]; apply NoDup_nil.
Qed.

End LoaderFacts.

(* ================================================================== *)
(** * The claims *)

Section MatcherClaims.

Import UserMatcher.
Local Open Scope Q_scope.

Variable token_sort_ratio : string -> string -> Q.

Local Abbreviation score_user := (score_user token_sort_ratio).
Local Abbreviation match_loop := (match_loop token_sort_ratio).
Local Abbreviation match_users_on := (match_users_on token_sort_ratio).
Local Abbreviation match_users := (match_users token_sort_ratio).

(** The entry that the loop leaves for a user of a well formed table. *)
Lemma match_loop_entry (description : string) (users : dict string)
    (m : dict Q) (uid name : string) :
  Dict.wf users -> In (uid, name) users ->
  match_loop description (PyStr.split description) users Dict.empty = Ok m ->
  Dict.get m uid =
    match score_user description (PyStr.split description) name with
    | Ok (Some s) => Some s
    | _ => None
    end.
Proof.
  intros W Hin Hm.
  rewrite (match_loop_get token_sort_ratio _ _ _ _ _ uid W Hm).
  rewrite (in_get users uid name W Hin). reflexivity.
Qed.

(** Every entry of the result is the entry of a user of the table, with
    the score that the loop body gives this user for the text of the
    transaction. *)
Lemma match_users_on_entries (transactions users : dict string)
    (transaction_id : string) :
  exists m,
    match_users_on transactions users transaction_id
    = Ok (ranked m, List.length (ranked m)) /\
    Forall (fun kv => exists text name,
              Dict.get transactions transaction_id = Some text /\
              In (fst kv, name) users /\
              score_user (PyStr.lower (PyStr.strip text))
                (PyStr.split (PyStr.lower (PyStr.strip text))) name
              = Ok (Some (snd kv))) m.
Proof.
  destruct (Dict.get transactions transaction_id) as [text|] eqn:G.
  2:{ exists []. split; [|apply Forall_nil].
      unfold UserMatcher.match_users_on, Dict.contains. now rewrite G. }
  destruct (PyStr.is_empty (PyStr.lower (PyStr.strip text))) eqn:E.
  { exists []. split; [|apply Forall_nil].
    unfold UserMatcher.match_users_on, Dict.contains, Dict.getitem.
    rewrite G. simpl. now rewrite E. }
  destruct (Dict.is_empty users) eqn:U.
  { exists []. split; [|apply Forall_nil].
    unfold UserMatcher.match_users_on, Dict.contains, Dict.getitem.
    rewrite G. simpl. now rewrite E, U. }
  destruct (match_users_on_found token_sort_ratio _ _ _ _ G E U) as [m [Hm Hr]].
  exists m. split; [exact Hr|].
  apply (match_loop_inv token_sort_ratio
           (fun kv => exists text' name,
              Some text = Some text' /\
              In (fst kv, name) users /\
              score_user (PyStr.lower (PyStr.strip text'))
                (PyStr.split (PyStr.lower (PyStr.strip text'))) name
              = Ok (Some (snd kv)))
           _ _ _ _ _
           (fun u n s Hin Hs =>
              ex_intro _ text (ex_intro _ n (conj eq_refl (conj Hin Hs)))) Hm).
  - apply NoDup_nil.
  - apply Forall_nil.
Qed.

(** C2, amended.  For a document whose normalized text is not empty, the
    five-stage cascade of the specification assigns the score of every
    entity of a well formed entity table: the loop stores under the id of
    the entity the score of the first stage that gives one, the entity is
    returned with that score rounded to two decimals (a score of two
    decimals within 0.005 of it), and an entity to which no stage gives a
    score is absent.  For a document whose normalized text is empty the
    result is empty and no stage is applied. *)
Theorem cascade_assigns_scores (transactions users : dict string)
    (transaction_id text : string) :
  Dict.wf users ->
  Dict.get transactions transaction_id = Some text ->
  cascade_assigns token_sort_ratio transactions users transaction_id text.
Proof.
  intros W G. split.
  - intros E. unfold UserMatcher.match_users_on, Dict.contains, Dict.getitem.
    rewrite G. simpl. now rewrite E.
  - intros Hne.
    assert (E : PyStr.is_empty (PyStr.lower (PyStr.strip text)) = false).
    { destruct (PyStr.is_empty _) eqn:E; [|reflexivity].
      apply is_empty_true in E. contradiction. }
    destruct (Dict.is_empty users) eqn:U.
    { destruct users; [|discriminate]. exists [], [].
      split; [|split; [reflexivity|intros uid name []]].
      unfold UserMatcher.match_users_on, Dict.contains, Dict.getitem.
      rewrite G. simpl. now rewrite E. }
    destruct (match_users_on_found token_sort_ratio _ _ _ _ G E U) as [m [Hm Hr]].
    exists (ranked m), m. split; [exact Hr|]. split; [exact Hm|].
    intros uid name Hin.
    pose proof (match_loop_entry _ _ _ _ _ W Hin Hm) as Hg.
    destruct (score_user_cascade token_sort_ratio _ name E) as [o [Ho Hs]].
    rewrite Ho in Hg.
    assert (Hg' : Dict.get m uid = o) by (rewrite Hg; now destruct o).
    split; [now rewrite Hg'|].
    destruct (Cascade.cascade token_sort_ratio _ _) as [s|];
      destruct o as [s'|]; simpl in Hs; try contradiction.
    + apply get_in in Hg'.
      exists (to_user_match (uid, s')). split.
      * unfold ranked. apply in_map. apply sorted_desc_in. exact Hg'.
      * split; [reflexivity|]. simpl.
        split; [apply round2_two_decimals|now apply round2_close].
    + rewrite ranked_ids. intros Hin'.
      apply (Permutation_in _ (Permutation_sym
               (Permutation_map fst (sorted_desc_perm m)))) in Hin'.
      apply get_none_keys in Hg'. contradiction.
Qed.

(** C3, amended.  For a document whose normalized text is not empty and a
    fuzzy ratio of at most 100, an entity of a well formed table whose
    normalized label equals the normalized text has score exactly 1.0,
    every entry ranked in front of it has score 1.0 as well, and it is the
    first entry when every entity that comes earlier in the table has a
    score below 1.0 or none. *)
Theorem exact_match_leads_ties (transactions users : dict string)
    (transaction_id : string) :
  (forall a c, token_sort_ratio a c <= 100) ->
  Dict.wf users ->
  (forall text, Dict.get transactions transaction_id = Some text ->
                PyStr.lower (PyStr.strip text) <> EmptyString) ->
  exact_match_leads token_sort_ratio transactions users transaction_id.
Proof.
  intros R W Hne text uid name G Hin Heq.
  set (d := PyStr.lower (PyStr.strip text)) in *.
  assert (E : PyStr.is_empty d = false).
  { destruct (PyStr.is_empty d) eqn:E; [|reflexivity].
    apply is_empty_true in E. elim (Hne text G E). }
  assert (U : Dict.is_empty users = false) by (destruct users; [destruct Hin|reflexivity]).
  destruct (match_users_on_found token_sort_ratio _ _ _ _ G E U) as [m [Hm Hr]].
  fold d in Hm.
  pose proof (match_loop_entry _ _ _ _ _ W Hin Hm) as Hg.
  assert (Hs : score_user d (PyStr.split d) name = Ok (Some 1.0)).
  { unfold UserMatcher.score_user. rewrite Heq, String.eqb_refl. reflexivity. }
  rewrite Hs in Hg. apply get_in in Hg.
  destruct (match_loop_inv token_sort_ratio (fun kv => snd kv <= 1)
              _ _ _ _ _ (fun u n s _ Hs' => score_user_upper token_sort_ratio
                                              _ _ n s R Hs') Hm)
    as [Wm Hu]; [apply NoDup_nil|apply Forall_nil|].
  apply sorted_desc_in in Hg.
  destruct (in_split _ _ Hg) as [l1 [l2 Hsplit]].
  exists (map to_user_match l1), (map to_user_match l2).
  assert (Hrank : ranked m
                  = (map to_user_match l1
                     ++ {| user_id := uid; match_metric := 1 |}
                     :: map to_user_match l2)%list).
  { unfold ranked, Dict.items. rewrite Hsplit, map_app. reflexivity. }
  rewrite <- Hrank. split; [exact Hr|]. split.
  - pose proof (sorted_desc_descending m) as D.
    rewrite Hsplit, map_app in D. simpl in D.
    apply descending_before in D.
    rewrite Forall_forall in *. intros x Hx.
    apply in_map_iff in Hx. destruct Hx as [kv [<- Hkv]].
    simpl. apply round2_one.
    assert (A : 1.0 <= snd kv) by (apply D; now apply in_map).
    assert (B : snd kv <= 1).
    { apply Hu. apply sorted_desc_in. rewrite Hsplit.
      apply in_or_app. now left. }
    lra.
  - intros earlier later Hsp Hlt. subst users.
    rewrite match_loop_app in Hm. apply bind_ok in Hm.
    destruct Hm as [m1 [Hm1 Hm2]].
    simpl in Hm2. rewrite Hs in Hm2. simpl in Hm2.
    unfold Dict.wf, Dict.keys in W. rewrite map_app in W. simpl in W.
    pose proof (NoDup_remove_1 _ _ _ W) as W12.
    pose proof (NoDup_remove_2 _ _ _ W) as Wuid.
    destruct (match_loop_extends token_sort_ratio d (PyStr.split d)
                earlier [] m1) as [extra1 [E1 F1]];
      [exact (NoDup_app_remove_r _ _ W12)|intros k _ []|exact Hm1|].
    simpl in E1. subst extra1.
    assert (K1 : forall k, In k (Dict.keys m1) -> In k (map fst earlier)).
    { intros k Hk. unfold Dict.keys in Hk. apply in_map_iff in Hk.
      destruct Hk as [kv [<- Hkv]]. rewrite Forall_forall in F1.
      destruct (F1 kv Hkv) as [n [Hn _]].
      change (fst kv) with (fst (fst kv, n)). now apply in_map. }
    rewrite set_fresh in Hm2.
    2:{ intros Hk. apply Wuid. apply in_or_app. left. now apply K1. }
    destruct (match_loop_extends token_sort_ratio d (PyStr.split d)
                later (m1 ++ [(uid, 1.0)])%list m) as [extra2 [E2 F2]];
      [exact (NoDup_app_remove_l _ _ W12)| |exact Hm2|].
    { intros k Hk Hk'. unfold Dict.keys in Hk'. rewrite map_app in Hk'.
      apply in_app_or in Hk'. destruct Hk' as [Hk'|[<-|[]]].
      - exact (nodup_app_disjoint _ _ k W12 (K1 k Hk') Hk).
      - apply Wuid. apply in_or_app. now right. }
    rewrite <- app_assoc in E2. simpl in E2.
    destruct (sorted_desc_head m1 (uid, 1.0) extra2) as [rest Hhead].
    + intros y Hy. rewrite Forall_forall in F1.
      destruct (F1 y Hy) as [n [Hn Hsy]].
      destruct (score_user_cascade token_sort_ratio d n E) as [o [Ho Hc]].
      rewrite Hsy in Ho. inversion Ho; subst o.
      destruct (Cascade.cascade token_sort_ratio _ d) as [s|] eqn:C;
        simpl in Hc; [|contradiction].
      specialize (Hlt (fst y) n s Hn C). simpl. lra.
    + intros y Hy. rewrite Forall_forall in F2.
      destruct (F2 y Hy) as [n [_ Hsy]].
      pose proof (score_user_upper token_sort_ratio _ _ _ _ R Hsy). simpl. lra.
    + rewrite <- E2, Hsplit in Hhead.
      destruct l1 as [|y l1']; [reflexivity|]. exfalso.
      simpl in Hhead. inversion Hhead; subst y rest.
      pose proof (sorted_desc_keys_nodup m Wm) as Ns.
      rewrite Hsplit in Ns. simpl in Ns.
      inversion Ns as [|? ? Hnot _]; subst.
      apply Hnot. rewrite map_app. apply in_or_app. right. now left.
Qed.

(** C6.  For every document id absent from the document table,
    [match_users] returns the empty list with count 0, as a value and not
    as an exception. *)
Theorem missing_id_gives_empty (fs : files) (st : state)
    (transaction_id : string) :
  Dict.contains (fst (DataLoader.get_transactions fs st)) transaction_id = false ->
  fst (match_users fs st transaction_id) = Ok ([], 0%nat).
Proof.
  intros H. rewrite match_users_fst.
  unfold UserMatcher.match_users_on. rewrite H. reflexivity.
Qed.

(** C9.  Every run of [match_users] returns, and every entry of the list
    it returns is the entry of a user of the table whose score, as the
    loop body computes it before rounding, is at least 0.70; the returned
    [match_metric] is within 0.005 of that score and is itself at least
    0.70. *)
Theorem match_metric_at_least_threshold (fs : files) (st : state)
    (transaction_id : string) :
  exists res,
    fst (match_users fs st transaction_id) = Ok (res, List.length res) /\
    Forall (fun m => exists text name s,
              Dict.get (fst (DataLoader.get_transactions fs st)) transaction_id
              = Some text /\
              In (user_id m, name)
                 (fst (DataLoader.get_users fs
                         (snd (DataLoader.get_transactions fs st)))) /\
              score_user (PyStr.lower (PyStr.strip text))
                (PyStr.split (PyStr.lower (PyStr.strip text))) name
              = Ok (Some s) /\
              0.7 <= s /\
              Qabs (match_metric m - s) <= 1 # 200 /\
              0.7 <= match_metric m) res.
Proof.
  rewrite match_users_fst.
  destruct (match_users_on_entries
              (fst (DataLoader.get_transactions fs st))
              (fst (DataLoader.get_users fs
                      (snd (DataLoader.get_transactions fs st))))
              transaction_id) as [m [Hr F]].
  exists (ranked m). split; [exact Hr|].
  apply ranked_forall.
  rewrite Forall_forall in *. intros kv Hkv.
  destruct (F kv Hkv) as [text [name [G [Hin Hs]]]].
  pose proof (score_user_lower _ _ _ _ _ Hs) as L.
  exists text, name, (snd kv). simpl.
  split; [exact G|]. split; [exact Hin|]. split; [exact Hs|].
  split; [exact L|]. split; [apply round2_close; reflexivity|].
  now apply round2_ge_threshold.
Qed.

End MatcherClaims.

Section SearchClaims.

Import SemanticSearcher.
Local Open Scope Q_scope.

Variable vector : Type.
Variable encode : string -> vector.
Variable dot : vector -> vector -> Q.
Variable norm : vector -> Q.
Variable SIMILARITY_THRESHOLD : Q.

Local Abbreviation search_transactions_on :=
  (search_transactions_on vector encode dot norm SIMILARITY_THRESHOLD).
Local Abbreviation search_transactions :=
  (search_transactions vector encode dot norm SIMILARITY_THRESHOLD).
Local Abbreviation score_of := (score_of vector encode dot norm).
Local Abbreviation passed :=
  (passed vector encode dot norm SIMILARITY_THRESHOLD).

Lemma search_transactions_unfold (fs : files) (st : state) (query : string) :
  search_transactions fs st query
  = search_transactions_on (fst (DataLoader.get_transactions fs st)) query
      (snd (DataLoader.get_transactions fs st)).
Proof.
  unfold SemanticSearcher.search_transactions.
  destruct (DataLoader.get_transactions fs st). reflexivity.
Qed.

(** Every run returns: the ranked list of a well formed dictionary of
    texts that passed the threshold, and a count. *)
Lemma search_transactions_shape (fs : files) (st : state) (query : string) :
  exists m,
    fst (search_transactions fs st query)
    = Ok (ranked_transactions m,
          if Dict.is_empty (fst (DataLoader.get_transactions fs st))
          then 0%nat else List.length (PyStr.split query)) /\
    Dict.wf m /\
    Forall (passed (fst (DataLoader.get_transactions fs st)) query) m /\
    (Dict.is_empty (fst (DataLoader.get_transactions fs st)) = true -> m = []).
Proof.
  rewrite search_transactions_unfold.
  destruct (Dict.is_empty (fst (DataLoader.get_transactions fs st))) eqn:E.
  - rewrite (search_transactions_on_empty _ _ _ _ _ _ _ _ E).
    exists []. split; [reflexivity|].
    split; [apply NoDup_nil|]. split; [apply Forall_nil|reflexivity].
  - destruct (search_transactions_on_shape vector encode dot norm
                SIMILARITY_THRESHOLD _ query
                (snd (DataLoader.get_transactions fs st)) E) as [m [Hr [W F]]].
    exists m. rewrite Hr. split; [reflexivity|].
    split; [exact W|]. split; [exact F|discriminate].
Qed.

(** C1, amended.  When the document table is empty, [search_transactions]
    returns the empty list with token count 0, whatever the query; when
    the table is not empty, the token count is the number of
    whitespace-delimited tokens of the query. *)
Theorem token_count_of_search (fs : files) (st : state) (query : string) :
  exists res,
    fst (search_transactions fs st query)
    = if Dict.is_empty (fst (DataLoader.get_transactions fs st))
      then Ok ([], 0%nat)
      else Ok (res, List.length (PyStr.split query)).
Proof.
  destruct (search_transactions_shape fs st query) as [m [Hr [_ [_ Hn]]]].
  exists (ranked_transactions m). rewrite Hr.
  destruct (Dict.is_empty _); [|reflexivity].
  rewrite (Hn eq_refl). reflexivity.
Qed.



End SearchClaims.

Section BothClaims.

Local Open Scope Q_scope.

Variable token_sort_ratio : string -> string -> Q.
Variable vector : Type.
Variable encode : string -> vector.
Variable dot : vector -> vector -> Q.
Variable norm : vector -> Q.
Variable SIMILARITY_THRESHOLD : Q.

Local Abbreviation match_users := (UserMatcher.match_users token_sort_ratio).
Local Abbreviation search_transactions :=
  (SemanticSearcher.search_transactions vector encode dot norm
     SIMILARITY_THRESHOLD).

(** C5.  With a fuzzy ratio of at most 100, norms that are not negative
    and the inequality of Cauchy and Schwarz for the embeddings of texts,
    the lists returned by [match_users] and by [search_transactions] are
    sorted by score in descending order, and every returned score lies
    between 0 and 1 and has two decimals. *)
Theorem results_sorted_and_valid (fs : files) (st : state)
    (transaction_id query : string) :
  (forall a c, token_sort_ratio a c <= 100) ->
  (forall s, 0 <= norm (encode s)) ->
  (forall s t, Qabs (dot (encode s) (encode t))
               <= norm (encode s) * norm (encode t)) ->
  (exists res,
     fst (match_users fs st transaction_id) = Ok (res, List.length res) /\
     descending (map match_metric res) /\
     Forall valid_score (map match_metric res)) /\
  (exists res n,
     fst (search_transactions fs st query) = Ok (res, n) /\
     descending (map embedding res) /\
     Forall valid_score (map embedding res)).
Proof.
  intros R N C. split.
  - rewrite match_users_fst.
    destruct (match_users_on_shape token_sort_ratio
                (fst (DataLoader.get_transactions fs st))
                (fst (DataLoader.get_users fs
                        (snd (DataLoader.get_transactions fs st))))
                transaction_id) as [m [Hr [W F]]].
    exists (ranked m). split; [exact Hr|].
    split; [apply ranked_descending|].
    apply Forall_map. apply ranked_forall.
    rewrite Forall_forall in *. intros kv Hkv.
    destruct (F kv Hkv) as [d [tokens [name Hs]]].
    pose proof (score_user_lower _ _ _ _ _ Hs) as L.
    pose proof (score_user_upper _ _ _ _ _ R Hs) as U.
    simpl. split; [apply round2_range; lra|apply round2_two_decimals].
  - destruct (search_transactions_shape vector encode dot norm
                SIMILARITY_THRESHOLD fs st query) as [m [Hr [_ [F _]]]].
    eexists; eexists. split; [exact Hr|].
    rewrite ranked_transactions_scores.
    split; [apply sorted_desc_descending|].
    rewrite Forall_forall in *. intros q Hq.
    apply in_map_iff in Hq. destruct Hq as [kv [<- Hkv]].
    apply (proj1 (sorted_desc_in _ _)) in Hkv.
    destruct (F kv Hkv) as [d [_ [_ V]]]. rewrite V.
    split; [|apply round2_two_decimals].
    apply round2_range, normalize_range, cosine_range; auto.
Qed.

(** C7.  A second run of [match_users] on the same id, in the state that
    the first run left, returns what the first run returned and leaves
    the state as it is; the same holds for [search_transactions] on the
    same query, the embedding being a function. *)
Theorem runs_repeat (fs : files) (st : state) (transaction_id query : string) :
  (let r1 := match_users fs st transaction_id in
   match_users fs (snd r1) transaction_id = r1) /\
  (let r1 := search_transactions fs st query in
   search_transactions fs (snd r1) query = r1).
Proof.
  split; cbv zeta.
  - unfold UserMatcher.match_users.
    destruct (DataLoader.get_transactions fs st) as [t st1] eqn:Et.
    destruct (DataLoader.get_users fs st1) as [u st2] eqn:Eu.
    cbn [snd].
    assert (Ct : transactions_cache st2 = Some t).
    { pose proof (get_users_transactions_cache fs st1) as H1.
      pose proof (get_transactions_cached fs st) as H2.
      rewrite Eu in H1. rewrite Et in H2. simpl in H1, H2. congruence. }
    rewrite (get_transactions_hit fs st2 t Ct).
    assert (Cu : users_cache st2 = Some u).
    { pose proof (get_users_cached fs st1) as H. rewrite Eu in H. exact H. }
    rewrite (get_users_hit fs st2 u Cu). reflexivity.
  - unfold SemanticSearcher.search_transactions.
    destruct (DataLoader.get_transactions fs st) as [t st1] eqn:Et.
    assert (Ct : transactions_cache st1 = Some t).
    { pose proof (get_transactions_cached fs st) as H.
      rewrite Et in H. exact H. }
    unfold SemanticSearcher.search_transactions_on.
    destruct (Dict.is_empty t) eqn:E; cbn [snd].
    + rewrite (get_transactions_hit fs st1 t Ct). rewrite E. reflexivity.
    + assert (Ct' : transactions_cache (SemanticSearcher.get_model st1) = Some t)
        by exact Ct.
      rewrite (get_transactions_hit fs _ t Ct'). rewrite E. reflexivity.
Qed.

(** C10.  In the list returned by [match_users] no user id appears twice,
    and in the list returned by [search_transactions] no transaction id
    appears twice. *)
Theorem ids_unique (fs : files) (st : state) (transaction_id query : string) :
  (exists res,
     fst (match_users fs st transaction_id) = Ok (res, List.length res) /\
     NoDup (map user_id res)) /\
  (exists res n,
     fst (search_transactions fs st query) = Ok (res, n) /\
     NoDup (map trans_id res)).
Proof.
  split.
  - rewrite match_users_fst.
    destruct (match_users_on_shape token_sort_ratio
                (fst (DataLoader.get_transactions fs st))
                (fst (DataLoader.get_users fs
                        (snd (DataLoader.get_transactions fs st))))
                transaction_id) as [m [Hr [W _]]].
    exists (ranked m). split; [exact Hr|]. now apply ranked_nodup.
  - destruct (search_transactions_shape vector encode dot norm
                SIMILARITY_THRESHOLD fs st query) as [m [Hr [W _]]].
    eexists; eexists. split; [exact Hr|].
    rewrite ranked_transactions_ids. now apply sorted_desc_keys_nodup.
Qed.

End BothClaims.

(* ================================================================== *)
(** * Examples and instances *)

Section Instances.

Local Open Scope Q_scope.

Local Abbreviation toy_search :=
  (SemanticSearcher.search_transactions toy_vector toy_encode toy_dot toy_norm).

(** The runs of the examples; scores are in lowest terms, 43 # 50 is
    0.86 and 24 # 25 is 0.96. *)
Example match_liam :
  fst (UserMatcher.match_users lcs_ratio example_files initial_state "t1")
  = Ok ([{| user_id := "u1"; match_metric := 0.89 |}], 1%nat).
Proof. vm_compute. reflexivity. Qed.

Example match_ema :
  fst (UserMatcher.match_users lcs_ratio example_files initial_state "t4")
  = Ok ([{| user_id := "u2"; match_metric := 43 # 50 |}], 1%nat).
Proof. vm_compute. reflexivity. Qed.

Example search_salary :
  fst (toy_search 0.3 example_files initial_state "salary")
  = Ok ([{| trans_id := "t1"; embedding := 0.97 |};
         {| trans_id := "t4"; embedding := 0.97 |};
         {| trans_id := "t3"; embedding := 24 # 25 |};
         {| trans_id := "t2"; embedding := 0.3 |}], 1%nat).
Proof. vm_compute. reflexivity. Qed.

(** C1 as stated fails: with no document at all and a query of two
    tokens the token count is 0, not 2. *)
Lemma empty_table_reports_no_tokens :
  Dict.is_empty (transactions_of no_files) = true /\
  fst (toy_search 0.3 no_files initial_state "salary payment")
  = Ok ([], 0%nat) /\
  fst (toy_search 0.3 no_files initial_state "salary payment")
  <> Ok ([], List.length (PyStr.split "salary payment")).
Proof.
  split; [reflexivity|]. split; [reflexivity|].
  vm_compute. discriminate.
Qed.

(** C2 as stated fails: for a text of spaces and a user without a name,
    the first stage of the cascade gives 1.0, and the user is not
    returned. *)
Lemma cascade_fails_on_empty_text :
  fst (UserMatcher.match_users lcs_ratio blank_files initial_state "t1")
  = Ok ([], 0%nat) /\
  Cascade.cascade lcs_ratio (PyStr.lower (PyStr.strip EmptyString))
    (PyStr.lower (PyStr.strip "  ")) = Some 1 /\
  ~ cascade_decides lcs_ratio (transactions_of blank_files)
      (users_of blank_files) "t1".
Proof.
  split; [reflexivity|]. split; [reflexivity|].
  intros H.
  destruct (H "  " "u1" EmptyString eq_refl (or_introl eq_refl)) as [res [Hr Hc]].
  vm_compute in Hr. inversion Hr; subst res.
  change (Cascade.cascade lcs_ratio (PyStr.lower (PyStr.strip EmptyString))
            (PyStr.lower (PyStr.strip "  "))) with (Some 1%Q) in Hc.
  destruct Hc as [m [[] _]].
Qed.

(** C3 as stated fails: of two users whose normalized name is the
    normalized text, the second of the table is the second entry, not the
    first. *)
Lemma exact_match_not_first :
  fst (UserMatcher.match_users lcs_ratio twin_files initial_state "t1")
  = Ok ([{| user_id := "u1"; match_metric := 1 |};
         {| user_id := "u2"; match_metric := 1 |}], 2%nat) /\
  PyStr.lower (PyStr.strip "emma ") = PyStr.lower (PyStr.strip "emma") /\
  ~ exact_match_first lcs_ratio (transactions_of twin_files)
      (users_of twin_files) "t1".
Proof.
  split; [vm_compute; reflexivity|]. split; [reflexivity|].
  intros H.
  destruct (H "emma" "u2" "emma " eq_refl (or_intror (or_introl eq_refl)) eq_refl)
    as [rest Hr].
  vm_compute in Hr. discriminate Hr.
Qed.


(** With the threshold 0.301 the returned score is below the threshold. *)
Example rounded_score_below_threshold :
  fst (toy_search 0.301 payroll_files initial_state "salary")
  = Ok ([{| trans_id := "t1"; embedding := 0.3 |}], 1%nat) /\
  ~ all_above 0.301 [{| trans_id := "t1"; embedding := 0.3 |}].
Proof.
  split; [vm_compute; reflexivity|].
  intros H. inversion H as [|? ? Hlt _]; subst.
  simpl in Hlt. vm_compute in Hlt. discriminate Hlt.
Qed.

Lemma cascade_assigns_scores_witness :
  Dict.wf (users_of example_files) /\
  cascade_assigns lcs_ratio (transactions_of example_files)
    (users_of example_files) "t1" "Payment to Liam Johnson for March".
Proof.
  assert (W : Dict.wf (users_of example_files)).
  { exact (load_wf "id" "name" (users_csv example_files)). }
  split; [exact W|].
  apply (cascade_assigns_scores lcs_ratio); [exact W|reflexivity].
Defined.

Lemma exact_match_leads_ties_witness :
  Dict.wf (users_of twin_files) /\
  exact_match_leads lcs_ratio (transactions_of twin_files)
    (users_of twin_files) "t1".
Proof.
  assert (W : Dict.wf (users_of twin_files)).
  { exact (load_wf "id" "name" (users_csv twin_files)). }
  split; [exact W|].
  apply (exact_match_leads_ties lcs_ratio).
  - intros a c. apply lcs_ratio_range.
  - exact W.
  - intros text G. vm_compute in G. inversion G; subst text.
    vm_compute. discriminate.
Defined.

Lemma missing_id_gives_empty_witness :
  Dict.contains (fst (DataLoader.get_transactions example_files initial_state))
    "invalid_id" = false /\
  fst (UserMatcher.match_users lcs_ratio example_files initial_state "invalid_id")
  = Ok ([], 0%nat).
Proof.
  split; [reflexivity|].
  apply (missing_id_gives_empty lcs_ratio). reflexivity.
Defined.


Lemma results_sorted_and_valid_witness :
  (exists res,
     fst (UserMatcher.match_users lcs_ratio example_files initial_state "t1")
     = Ok (res, List.length res) /\
     descending (map match_metric res) /\
     Forall valid_score (map match_metric res)) /\
  (exists res n,
     fst (toy_search 0.3 example_files initial_state "salary") = Ok (res, n) /\
     descending (map embedding res) /\
     Forall valid_score (map embedding res)).
Proof.
  apply (results_sorted_and_valid lcs_ratio toy_vector toy_encode toy_dot
           toy_norm 0.3 example_files initial_state "t1" "salary").
  - intros a c. apply lcs_ratio_range.
  - apply toy_norm_nonneg.
  - apply toy_cauchy_schwarz.
Defined.

End Instances.

Section FloatInstances.

Import PrimFloat.


End FloatInstances.

(* ================================================================== *)
(** * Further properties *)

(** ** Strings *)

Section BlankFacts.



Lemma flush_nil (cur : string) (k : list string) :
  PyStr.flush cur k = [] <-> cur = EmptyString /\ k = [].
Proof.
  destruct cur; simpl; split.
  - auto.
  - intros [_ H]. exact H.
  - discriminate.
  - intros [H _]. discriminate.
Qed.

Lemma split_aux_nil (cur s : string) :
  PyStr.split_aux cur s = [] <-> cur = EmptyString /\ blank s = true.
Proof.
  revert cur. induction s as [|c r IH]; intros cur; simpl.
  - rewrite flush_nil. tauto.
  - destruct (PyStr.is_space c); simpl.
    + rewrite flush_nil, IH. tauto.
    + rewrite IH. split; [intros [H _]; discriminate|intros [_ H]; discriminate].
Qed.

End BlankFacts.

(** ** [DataLoader] *)

Section LoaderProperties.

Import DataLoader.

Lemma load_rows_app (key value : string) (r1 r2 : list row) (cache : dict string) :
  load_rows key value (r1 ++ r2) cache
  = load_rows key value r2 (load_rows key value r1 cache).
Proof.
  revert cache. induction r1 as [|r rest IH]; intros cache; simpl; [reflexivity|].
  apply IH.
Qed.

(** Rows that do not carry the id [k] leave the entry of [k] alone. *)
Lemma load_rows_get_other (key value : string) (rows : list row)
    (cache : dict string) (k : string) :
  (forall r, In r rows -> Dict.get r key <> Some k) ->
  Dict.get (load_rows key value rows cache) k = Dict.get cache k.
Proof.
  revert cache. induction rows as [|r rest IH]; intros cache H; simpl; [reflexivity|].
  rewrite IH by (intros r' Hr'; apply H; now right).
  destruct (negb (Dict.is_empty r) && Dict.contains r key && Dict.contains r value);
    [|reflexivity].
  destruct (Dict.get r key) as [k'|] eqn:Ek; [|reflexivity].
  destruct (Dict.get r value) as [v'|]; [|reflexivity].
  apply get_set_other. intros ->. apply (H r); [now left|exact Ek].
Qed.

(** X1.  The table read from a CSV file gives, for an id, the value of the
    last row that carries this id: a later row with the same id replaces
    the value of an earlier one. *)
Theorem last_row_wins (key value : string) (rows later : list row) (r : row)
    (k v : string) :
  Dict.get r key = Some k ->
  Dict.get r value = Some v ->
  (forall r', In r' later -> Dict.get r' key <> Some k) ->
  Dict.get (load key value (Some (rows ++ r :: later)%list)) k = Some v.
Proof.
  intros Hk Hv Hl. unfold load.
  rewrite load_rows_app. simpl.
  rewrite load_rows_get_other by exact Hl.
  assert (C : negb (Dict.is_empty r) && Dict.contains r key && Dict.contains r value
              = true).
  { unfold Dict.contains. rewrite Hk, Hv. destruct r; [discriminate|reflexivity]. }
  rewrite C, Hk, Hv. apply get_set_same.
Qed.

End LoaderProperties.

(** ** The order of [sorted] *)

Section StableOrder.

Context {K : Type}.
Implicit Types (x y z : K * Q) (l : list (K * Q)).
Local Open Scope Q_scope.







End StableOrder.

(** ** Normalization *)

Section NormalizationFacts.

Lemma is_space_lower (c : ascii) :
  PyStr.is_space (PyStr.lower_char c) = PyStr.is_space c.
Proof.
  destruct c as [b0 b1 b2 b3 b4 b5 b6 b7].
  destruct b0, b1, b2, b3, b4, b5, b6, b7; reflexivity.
Qed.

Lemma lower_char_idem (c : ascii) :
  PyStr.lower_char (PyStr.lower_char c) = PyStr.lower_char c.
Proof.
  destruct c as [b0 b1 b2 b3 b4 b5 b6 b7].
  destruct b0, b1, b2, b3, b4, b5, b6, b7; reflexivity.
Qed.

Lemma lower_idem (s : string) : PyStr.lower (PyStr.lower s) = PyStr.lower s.
Proof.
  induction s as [|c r IH]; simpl; [reflexivity|].
  now rewrite lower_char_idem, IH.
Qed.

Lemma lstrip_lower (s : string) :
  PyStr.lstrip (PyStr.lower s) = PyStr.lower (PyStr.lstrip s).
Proof.
  induction s as [|c r IH]; simpl; [reflexivity|].
  rewrite is_space_lower. destruct (PyStr.is_space c); [exact IH|reflexivity].
Qed.

Lemma rstrip_lower (s : string) :
  PyStr.rstrip (PyStr.lower s) = PyStr.lower (PyStr.rstrip s).
Proof.
  induction s as [|c r IH]; simpl; [reflexivity|].
  rewrite IH, is_space_lower.
  destruct (PyStr.rstrip r); simpl; [|reflexivity].
  destruct (PyStr.is_space c); reflexivity.
Qed.

Lemma rstrip_idem (s : string) : PyStr.rstrip (PyStr.rstrip s) = PyStr.rstrip s.
Proof.
  induction s as [|c r IH]; [reflexivity|].
  cbn [PyStr.rstrip]. destruct (PyStr.rstrip r) as [|d t] eqn:E.
  - destruct (PyStr.is_space c) eqn:S; [reflexivity|].
    cbn [PyStr.rstrip]. now rewrite S.
  - change (PyStr.rstrip (String c (String d t)))
      with (match PyStr.rstrip (String d t) with
            | EmptyString =>
                if PyStr.is_space c then EmptyString else String c EmptyString
            | String a r' => String c (String a r')
            end).
    now rewrite IH.
Qed.

(** A string that does not begin with whitespace keeps its first
    character under [rstrip]. *)
Lemma rstrip_head (c : ascii) (r : string) :
  PyStr.is_space c = false ->
  exists r', PyStr.rstrip (String c r) = String c r'.
Proof.
  intros H. cbn [PyStr.rstrip]. destruct (PyStr.rstrip r); [|eauto].
  rewrite H. eauto.
Qed.

Lemma lstrip_head (s : string) :
  PyStr.lstrip s = EmptyString \/
  exists c r, PyStr.lstrip s = String c r /\ PyStr.is_space c = false.
Proof.
  induction s as [|c r IH]; simpl; [now left|].
  destruct (PyStr.is_space c) eqn:S; [exact IH|].
  right. eauto.
Qed.

Lemma strip_idem (s : string) : PyStr.strip (PyStr.strip s) = PyStr.strip s.
Proof.
  unfold PyStr.strip.
  destruct (lstrip_head s) as [E|[c [r [E S]]]]; rewrite E.
  - reflexivity.
  - destruct (rstrip_head c r S) as [r' E'].
    assert (L : PyStr.lstrip (PyStr.rstrip (String c r)) = PyStr.rstrip (String c r)).
    { rewrite E'. simpl. now rewrite S. }
    rewrite L. apply rstrip_idem.
Qed.

Lemma strip_lower (s : string) :
  PyStr.strip (PyStr.lower s) = PyStr.lower (PyStr.strip s).
Proof. unfold PyStr.strip. now rewrite lstrip_lower, rstrip_lower. Qed.

Lemma normalized_idem (s : string) : normalized (normalized s) = normalized s.
Proof.
  unfold normalized. now rewrite strip_lower, strip_idem, lower_idem.
Qed.

Lemma prefix_same_length (a b : string) :
  prefix a b = true -> String.length a = String.length b -> a = b.
Proof.
  revert b. induction a as [|x a IH]; intros [|y b]; simpl; try discriminate.
  - reflexivity.
  - destruct (ascii_dec x y) as [->|]; [|discriminate].
    intros H L. f_equal. apply IH; [exact H|lia].
Qed.

Lemma contains_same_length (a b : string) :
  PyStr.contains a b = true -> String.length a = String.length b -> a = b.
Proof.
  destruct b as [|y b]; cbn [PyStr.contains]; intros H L.
  - rewrite orb_false_r in H. now apply prefix_same_length.
  - apply orb_true_iff in H. destruct H as [H|H].
    + now apply prefix_same_length.
    + apply contains_length in H. simpl in L. lia.
Qed.

End NormalizationFacts.

(** ** [UserMatcher.match_users] *)

Section MatcherProperties.

Import UserMatcher.
Local Open Scope Q_scope.

Variable token_sort_ratio : string -> string -> Q.

Local Abbreviation score_user := (score_user token_sort_ratio).
Local Abbreviation match_loop := (match_loop token_sort_ratio).
Local Abbreviation match_users_on := (match_users_on token_sort_ratio).
Local Abbreviation match_users := (match_users token_sort_ratio).

(** A run returns the empty list, or reaches the loop. *)
Lemma match_users_on_cases (transactions users : dict string)
    (transaction_id : string) :
  match_users_on transactions users transaction_id = Ok ([], 0%nat) \/
  exists text m,
    Dict.get transactions transaction_id = Some text /\
    PyStr.is_empty (normalized text) = false /\
    match_loop (normalized text) (PyStr.split (normalized text)) users Dict.empty
    = Ok m /\
    match_users_on transactions users transaction_id
    = Ok (ranked m, List.length (ranked m)).
Proof.
  destruct (Dict.get transactions transaction_id) as [text|] eqn:G.
  2:{ left. unfold UserMatcher.match_users_on, Dict.contains. now rewrite G. }
  destruct (PyStr.is_empty (normalized text)) eqn:E.
  { left. unfold UserMatcher.match_users_on, Dict.contains, Dict.getitem.
    rewrite G. simpl. unfold normalized in E. now rewrite E. }
  destruct (Dict.is_empty users) eqn:U.
  { left. unfold UserMatcher.match_users_on, Dict.contains, Dict.getitem.
    rewrite G. simpl. unfold normalized in E. now rewrite E, U. }
  right. destruct (match_users_on_found token_sort_ratio _ _ _ _ G E U) as [m [Hm Hr]].
  exists text, m. auto.
Qed.



(** In the model every run returns, a list of ids of the table. *)
Lemma match_users_on_from_table (transactions users : dict string)
    (transaction_id : string) :
  exists res,
    match_users_on transactions users transaction_id = Ok (res, List.length res) /\
    incl (map user_id res) (Dict.keys users) /\
    (List.length res <= List.length users)%nat.
Proof.
  destruct (match_users_on_cases transactions users transaction_id)
    as [H|[text [m [_ [_ [Hm Hr]]]]]].
  - exists []. split; [exact H|]. split; [intros k []|simpl; lia].
  - exists (ranked m). split; [exact Hr|].
    destruct (match_loop_inv token_sort_ratio
                (fun kv => In (fst kv) (Dict.keys users)) _ _ _ _ _
                (fun u n s Hin _ => in_map fst _ _ Hin) Hm)
      as [Wm Fm]; [apply NoDup_nil|apply Forall_nil|].
    assert (I : incl (Dict.keys m) (Dict.keys users)).
    { intros k Hk. unfold Dict.keys in Hk. apply in_map_iff in Hk.
      destruct Hk as [kv [<- Hkv]]. rewrite Forall_forall in Fm. now apply Fm. }
    split.
    + rewrite ranked_ids. intros k Hk. apply I.
      apply (Permutation_in _ (Permutation_sym
               (Permutation_map fst (sorted_desc_perm m)))). exact Hk.
    + unfold ranked, Dict.items. rewrite length_map.
      rewrite <- (Permutation_length (sorted_desc_perm m)).
      pose proof (NoDup_incl_length Wm I) as L.
      unfold Dict.keys in L. now rewrite !length_map in L.
Qed.

(** X3.  Every id of a list that [match_users] returns is an id of the
    users table, the list is not longer than the table, and the count
    that comes with it is its length. *)
Theorem matches_come_from_table (transactions users : dict string)
    (transaction_id : string) (res : list UserMatch) (n : nat) :
  match_users_on transactions users transaction_id = Ok (res, n) ->
  incl (map user_id res) (Dict.keys users) /\
  (List.length res <= List.length users)%nat /\
  n = List.length res.
Proof.
  intros H.
  destruct (match_users_on_from_table transactions users transaction_id)
    as [res' [Hr [I L]]].
  rewrite Hr in H. injection H as E1 E2. subst res' n. auto.
Qed.


End MatcherProperties.

Section MatcherNormalization.

Import UserMatcher.
Local Open Scope Q_scope.

Variable token_sort_ratio : string -> string -> Q.

Local Abbreviation score_user := (score_user token_sort_ratio).
Local Abbreviation match_loop := (match_loop token_sort_ratio).
Local Abbreviation match_users_on := (match_users_on token_sort_ratio).
Local Abbreviation match_users := (match_users token_sort_ratio).

Lemma score_user_normalized (description : string) (tokens : list string)
    (name : string) :
  score_user description tokens (normalized name)
  = score_user description tokens name.
Proof.
  unfold UserMatcher.score_user. fold (normalized (normalized name)).
  fold (normalized name). now rewrite normalized_idem.
Qed.

Lemma match_loop_normalized (description : string) (tokens : list string)
    (users : dict string) (matches : dict Q) :
  match_loop description tokens (normalize_values users) matches
  = match_loop description tokens users matches.
Proof.
  revert matches. induction users as [|[uid name] rest IH]; intros matches;
    simpl; [reflexivity|].
  rewrite score_user_normalized.
  destruct (score_user description tokens name) as [o|e]; simpl; [|reflexivity].
  apply IH.
Qed.

Lemma get_normalize_values (d : dict string) (k : string) :
  Dict.get (normalize_values d) k = option_map normalized (Dict.get d k).
Proof.
  induction d as [|[k0 v0] r IH]; simpl; [reflexivity|].
  destruct (String.eqb k k0); [reflexivity|exact IH].
Qed.

(** X5.  Matching is insensitive to case and to surrounding whitespace:
    with every user name and every description of the tables replaced by
    its stripped, lower-cased form, [match_users] returns the same
    result. *)
Theorem normalized_tables_same_result (transactions users : dict string)
    (transaction_id : string) :
  match_users_on (normalize_values transactions) (normalize_values users)
    transaction_id
  = match_users_on transactions users transaction_id.
Proof.
  unfold UserMatcher.match_users_on, Dict.contains, Dict.getitem.
  rewrite get_normalize_values.
  destruct (Dict.get transactions transaction_id) as [text|]; simpl; [|reflexivity].
  fold (normalized (normalized text)). fold (normalized text).
  rewrite normalized_idem.
  assert (U : Dict.is_empty (normalize_values users) = Dict.is_empty users)
    by now destruct users.
  rewrite U.
  destruct (PyStr.is_empty (normalized text) || Dict.is_empty users); [reflexivity|].
  unfold Dict.items. now rewrite match_loop_normalized.
Qed.

(** X6.  A user whose normalized name is contained in the description,
    without being the description or one of its tokens, gets a score of
    at least 0.85 and below 0.95, the score of a token. *)
Theorem substring_score_range (description : string) (tokens : list string)
    (name : string) :
  description <> EmptyString ->
  normalized name <> description ->
  PyStr.mem (normalized name) tokens = false ->
  PyStr.contains (normalized name) description = true ->
  exists s,
    score_user description tokens name = Ok (Some s) /\ 0.85 <= s /\ s < 0.95.
Proof.
  intros Hd Hn Hm Hc. unfold UserMatcher.score_user.
  fold (normalized name).
  destruct (String.eqb_spec (normalized name) description) as [E|_];
    [contradiction|].
  rewrite Hm, Hc.
  assert (Hl : (0 < String.length description)%nat).
  { destruct description; [contradiction|simpl; lia]. }
  rewrite (truediv_ok _ _ Hl). simpl.
  eexists. split; [reflexivity|].
  pose proof (contains_length _ _ Hc) as L.
  assert (L' : (String.length (normalized name) < String.length description)%nat).
  { destruct (Nat.eq_dec (String.length (normalized name))
                (String.length description)) as [Eq|Ne]; [|lia].
    elim Hn. now apply contains_same_length. }
  set (a := String.length (normalized name)) in *.
  set (b := String.length description) in *.
  assert (P : 0 < inject_Z (Z.of_nat b)).
  { change 0 with (inject_Z 0). rewrite <- Zlt_Qlt. lia. }
  assert (R0 : 0 <= inject_Z (Z.of_nat a) / inject_Z (Z.of_nat b)).
  { apply Qle_shift_div_l; [exact P|]. rewrite Qmult_0_l.
    change 0 with (inject_Z 0). rewrite <- Zle_Qle. lia. }
  assert (R1 : inject_Z (Z.of_nat a) / inject_Z (Z.of_nat b) < 1).
  { apply Qlt_shift_div_r; [exact P|]. rewrite Qmult_1_l.
    rewrite <- Zlt_Qlt. lia. }
  split; lra.
Qed.

Lemma match_users_caches (fs : files) (st : state) (transaction_id : string) :
  transactions_cache (snd (match_users fs st transaction_id))
  = Some (fst (DataLoader.get_transactions fs st)) /\
  users_cache (snd (match_users fs st transaction_id))
  = Some (fst (DataLoader.get_users fs
                 (snd (DataLoader.get_transactions fs st)))).
Proof.
  unfold UserMatcher.match_users, DataLoader.get_transactions,
    DataLoader.get_users.
  destruct (transactions_cache st) eqn:Et; destruct (users_cache st) eqn:Eu;
    simpl; rewrite ?Et, ?Eu; simpl; rewrite ?Et, ?Eu; auto.
Qed.

(** X7.  [match_users] never loads the embedding model, and it leaves in
    the two caches the tables it has used. *)
Theorem match_users_effects (fs : files) (st : state) (transaction_id : string) :
  let st' := snd (match_users fs st transaction_id) in
  model_loaded st' = model_loaded st /\
  transactions_cache st' = Some (fst (DataLoader.get_transactions fs st)) /\
  users_cache st'
  = Some (fst (DataLoader.get_users fs
                 (snd (DataLoader.get_transactions fs st)))).
Proof.
  cbv zeta. split; [|apply match_users_caches].
  unfold UserMatcher.match_users, DataLoader.get_transactions,
    DataLoader.get_users.
  destruct (transactions_cache st); destruct (users_cache st); reflexivity.
Qed.

(** X8.  Once a request has been answered, the tables are never read
    again: a later request is answered as it would have been answered at
    first, whatever the files have become. *)
Theorem later_files_are_ignored (fs fs' : files) (st : state)
    (transaction_id transaction_id' : string) :
  fst (match_users fs' (snd (match_users fs st transaction_id)) transaction_id')
  = fst (match_users fs st transaction_id').
Proof.
  rewrite !match_users_fst.
  pose proof (match_users_caches fs st transaction_id) as [Ct Cu].
  rewrite (get_transactions_hit fs' _ _ Ct). cbn [fst snd].
  rewrite (get_users_hit fs' _ _ Cu). reflexivity.
Qed.



End MatcherNormalization.

(** ** [SemanticSearcher.search_transactions] *)

Section SearchProperties.

Import SemanticSearcher.
Local Open Scope Q_scope.

Variable vector : Type.
Variable encode : string -> vector.
Variable dot : vector -> vector -> Q.
Variable norm : vector -> Q.

Local Abbreviation score_of := (score_of vector encode dot norm).

Lemma descriptions_of_table (transactions l : dict string) :
  Dict.wf transactions -> incl l transactions ->
  mapM (Dict.getitem transactions) (map fst l) = Ok (map snd l).
Proof.
  intros W. induction l as [|[k v] r IH]; intros I; simpl; [reflexivity|].
  unfold Dict.getitem at 1.
  rewrite (in_get transactions k v W (I _ (or_introl eq_refl))). simpl.
  rewrite IH; [reflexivity|]. intros x Hx. apply I. now right.
Qed.

Lemma combine_fst_snd {A B : Type} (l : list (A * B)) :
  combine (map fst l) (map snd l) = l.
Proof. induction l as [|[a b] r IH]; simpl; [reflexivity|now rewrite IH]. Qed.

(** On a well formed table the loop leaves the passing documents, in the
    order of the table, behind what was in the dictionary. *)
Lemma search_loop_passing (threshold : Q) (query : string)
    (l : list (string * string)) :
  forall (done : list vector) (matches : dict Q),
    Dict.wf l ->
    (forall k, In k (Dict.keys l) -> ~ In k (Dict.keys matches)) ->
    search_loop vector dot norm threshold (encode query)
      (done ++ map encode (map snd l))%list
      (enumerate_from (List.length done) l) matches
    = Ok (matches ++ passing encode dot norm threshold query l)%list.
Proof.
  induction l as [|[k d] r IH]; intros done matches W D.
  - simpl. now rewrite app_nil_r.
  - inversion W as [|? ? Hn Wr]; subst.
    cbn [map snd enumerate_from SemanticSearcher.search_loop].
    unfold list_getitem.
    rewrite nth_error_app2 by lia. rewrite Nat.sub_diag. cbn [nth_error bind].
    assert (Hd : (done ++ encode d :: map encode (map snd r)
                  = (done ++ [encode d]) ++ map encode (map snd r))%list)
      by now rewrite <- app_assoc.
    assert (Hl : S (List.length done) = List.length (done ++ [encode d])%list)
      by (rewrite length_app; simpl; lia).
    rewrite Hd, Hl.
    unfold passing.
    change (SemanticSearcher.normalize
              (SemanticSearcher.cosine vector dot norm (encode query) (encode d)))
      with (score_of query d).
    cbn [flat_map fst snd].
    destruct (Qgt_bool (score_of query d) threshold).
    + rewrite set_fresh by (apply D; now left).
      rewrite IH; [now rewrite <- app_assoc|exact Wr|].
      intros k' Hk Hin. unfold Dict.keys in Hin. rewrite map_app in Hin.
      apply in_app_or in Hin. destruct Hin as [Hin|[<-|[]]].
      * apply (D k'); [now right|exact Hin].
      * apply Hn. exact Hk.
    + rewrite IH; [reflexivity|exact Wr|].
      intros k' Hk. apply D. now right.
Qed.

(** The result on a well formed table that is not empty. *)
Lemma search_body_passing (threshold : Q) (transactions : dict string)
    (query : string) :
  Dict.wf transactions ->
  search_body vector encode dot norm threshold transactions query
  = Ok (ranked_transactions (passing encode dot norm threshold query transactions),
        List.length (PyStr.split query)).
Proof.
  intros W. unfold search_body, Dict.keys.
  rewrite (descriptions_of_table transactions transactions W (incl_refl _)).
  cbn [bind]. rewrite combine_fst_snd. unfold enumerate.
  pose proof (search_loop_passing threshold query transactions [] Dict.empty W
                (fun k _ H => H)) as H.
  cbn [app List.length] in H. rewrite H. reflexivity.
Qed.

End SearchProperties.

Section SearchResults.

Import SemanticSearcher.
Local Open Scope Q_scope.

Variable vector : Type.
Variable encode : string -> vector.
Variable dot : vector -> vector -> Q.
Variable norm : vector -> Q.

Local Abbreviation score_of := (score_of vector encode dot norm).
Local Abbreviation search_on := (search_transactions_on vector encode dot norm).
Local Abbreviation search := (search_transactions vector encode dot norm).

Lemma search_on_passing (threshold : Q) (transactions : dict string)
    (query : string) (st : state) :
  Dict.wf transactions ->
  Dict.is_empty transactions = false ->
  fst (search_on threshold transactions query st)
  = Ok (ranked_transactions (passing encode dot norm threshold query transactions),
        List.length (PyStr.split query)).
Proof.
  intros W E. unfold SemanticSearcher.search_transactions_on. rewrite E.
  cbn [fst]. now apply search_body_passing.
Qed.

Lemma in_passing (threshold : Q) (query : string) (l : dict string)
    (kv : string * Q) :
  In kv (passing encode dot norm threshold query l) <->
  exists d, In (fst kv, d) l /\ threshold < score_of query d /\
            snd kv = PyNum.round2 (score_of query d).
Proof.
  unfold passing. rewrite in_flat_map. split.
  - intros [[k d] [Hin H]]. cbn [fst snd] in H.
    destruct (Qgt_bool (score_of query d) threshold) eqn:G; [|destruct H].
    destruct H as [<-|[]]. exists d. apply Qgt_bool_true in G. auto.
  - intros [d [Hin [G E]]]. exists (fst kv, d). split; [exact Hin|].
    cbn [fst snd]. apply Qgt_bool_true in G. rewrite G.
    left. destruct kv as [k s]. simpl in *. now rewrite E.
Qed.

Lemma in_ranked_transactions (m : dict Q) (k : string) (s : Q) :
  In {| trans_id := k; embedding := s |} (ranked_transactions m) <-> In (k, s) m.
Proof.
  unfold ranked_transactions, Dict.items. rewrite in_map_iff. split.
  - intros [[k' s'] [E H]]. inversion E; subst.
    now apply (proj1 (sorted_desc_in _ _)) in H.
  - intros H. exists (k, s). split; [reflexivity|].
    now apply (proj2 (sorted_desc_in _ _)).
Qed.


(** X11.  Raising the threshold only removes results: every entry that
    is returned with the higher threshold is returned, with the same
    score, with the lower one. *)
Theorem raising_threshold_drops_results (t1 t2 : Q)
    (transactions : dict string) (query : string) (st : state) :
  Dict.wf transactions ->
  t1 <= t2 ->
  exists res1 res2 n,
    fst (search_on t1 transactions query st) = Ok (res1, n) /\
    fst (search_on t2 transactions query st) = Ok (res2, n) /\
    incl res2 res1.
Proof.
  intros W L.
  destruct (Dict.is_empty transactions) eqn:E.
  - exists [], [], 0%nat.
    rewrite !(search_transactions_on_empty _ _ _ _ _ _ _ _ E).
    split; [reflexivity|]. split; [reflexivity|]. intros x [].
  - eexists; eexists; eexists.
    split; [exact (search_on_passing t1 _ query st W E)|].
    split; [exact (search_on_passing t2 _ query st W E)|].
    intros [k s] H. apply in_ranked_transactions in H.
    apply in_ranked_transactions.
    apply in_passing in H. apply in_passing.
    destruct H as [d [Hd [G Es]]]. exists d.
    split; [exact Hd|]. split; [lra|exact Es].
Qed.


(** X13.  Every id that [search_transactions] returns is an id of the
    transactions table, and the list is not longer than the table. *)
Theorem results_come_from_table (threshold : Q) (fs : files) (st : state)
    (query : string) :
  exists res n,
    fst (search threshold fs st query) = Ok (res, n) /\
    incl (map trans_id res) (Dict.keys (fst (DataLoader.get_transactions fs st))) /\
    (List.length res
     <= List.length (fst (DataLoader.get_transactions fs st)))%nat.
Proof.
  destruct (search_transactions_shape vector encode dot norm threshold fs st query)
    as [m [Hr [W [F _]]]].
  eexists; eexists. split; [exact Hr|].
  set (t := fst (DataLoader.get_transactions fs st)) in *.
  assert (I : incl (Dict.keys m) (Dict.keys t)).
  { intros k Hk. unfold Dict.keys in Hk. apply in_map_iff in Hk.
    destruct Hk as [kv [<- Hkv]]. rewrite Forall_forall in F.
    destruct (F kv Hkv) as [d [G _]].
    apply get_in in G. change (fst kv) with (fst (fst kv, d)).
    unfold Dict.keys. now apply in_map. }
  split.
  - rewrite ranked_transactions_ids. intros k Hk. apply I.
    apply (Permutation_in _ (Permutation_sym
             (Permutation_map fst (sorted_desc_perm m)))). exact Hk.
  - unfold ranked_transactions, Dict.items. rewrite length_map.
    rewrite <- (Permutation_length (sorted_desc_perm m)).
    pose proof (NoDup_incl_length W I) as L.
    unfold Dict.keys in L. now rewrite !length_map in L.
Qed.

(** X14.  [search_transactions] loads the model when the table is not
    empty and leaves it alone when the table is empty; it never touches
    the cache of users. *)
Theorem search_effects (threshold : Q) (fs : files) (st : state) (query : string) :
  let st' := snd (search threshold fs st query) in
  model_loaded st'
  = (if Dict.is_empty (fst (DataLoader.get_transactions fs st))
     then model_loaded st else true) /\
  users_cache st' = users_cache st /\
  transactions_cache st' = Some (fst (DataLoader.get_transactions fs st)).
Proof.
  cbv zeta. rewrite search_transactions_unfold.
  unfold SemanticSearcher.search_transactions_on, DataLoader.get_transactions.
  destruct (transactions_cache st) as [d|] eqn:Et; cbn [fst snd].
  - destruct (Dict.is_empty d); cbn [snd]; simpl; auto.
  - destruct (Dict.is_empty _); cbn [snd]; simpl; auto.
Qed.

(** X15.  With a table that is not empty the token count is 0 exactly
    for a query of whitespace only. *)
Theorem no_tokens_iff_blank (threshold : Q) (fs : files) (st : state)
    (query : string) :
  Dict.is_empty (fst (DataLoader.get_transactions fs st)) = false ->
  exists res n,
    fst (search threshold fs st query) = Ok (res, n) /\
    (n = 0%nat <-> blank query = true).
Proof.
  intros E.
  destruct (search_transactions_shape vector encode dot norm threshold fs st query)
    as [m [Hr _]].
  rewrite E in Hr. eexists; eexists. split; [exact Hr|].
  rewrite length_zero_iff_nil. unfold PyStr.split.
  rewrite split_aux_nil. tauto.
Qed.

Lemma search_cache (threshold : Q) (fs : files) (st : state) (query : string) :
  transactions_cache (snd (search threshold fs st query))
  = Some (fst (DataLoader.get_transactions fs st)).
Proof.
  rewrite search_transactions_unfold.
  unfold SemanticSearcher.search_transactions_on, DataLoader.get_transactions.
  destruct (transactions_cache st) as [d|] eqn:Et; cbn [fst snd].
  - destruct (Dict.is_empty d); cbn [snd]; simpl; auto.
  - destruct (Dict.is_empty _); cbn [snd]; simpl; auto.
Qed.

(** X16.  Once a search has been answered, the table of transactions is
    never read again: a later search is answered as it would have been
    answered at first, whatever the files have become. *)
Theorem later_files_are_ignored_by_search (threshold : Q) (fs fs' : files)
    (st : state) (query query' : string) :
  fst (search threshold fs' (snd (search threshold fs st query)) query')
  = fst (search threshold fs st query').
Proof.
  rewrite (search_transactions_unfold _ _ _ _ _ fs').
  rewrite (get_transactions_hit fs' _ _ (search_cache threshold fs st query)).
  cbn [fst snd].
  rewrite (search_transactions_unfold _ _ _ _ _ fs st query').
  unfold SemanticSearcher.search_transactions_on.
  destruct (Dict.is_empty (fst (DataLoader.get_transactions fs st))); reflexivity.
Qed.

End SearchResults.

(** ** The endpoints *)

Section EndpointProperties.

Local Open Scope Q_scope.

Variable token_sort_ratio : string -> string -> Q.
Variable vector : Type.
Variable encode : string -> vector.
Variable dot : vector -> vector -> Q.
Variable norm : vector -> Q.
Variable SIMILARITY_THRESHOLD : Q.
Variable str : py_error -> string.

(** X17.  [GET /match-users/{transaction_id}] answers an id that is not
    in the transactions table with status 200, the empty list and the
    total 0: the guard of [match_users] returns before any description or
    name is looked at. *)
Theorem unknown_id_answered_empty (fs : files) (st : state)
    (transaction_id : string) :
  Dict.contains (fst (DataLoader.get_transactions fs st)) transaction_id = false ->
  fst (Endpoints.match_users token_sort_ratio str fs st transaction_id)
  = Endpoints.Http200
      {| Models.users := []; Models.total_number_of_matches := 0 |}.
Proof.
  intros C. unfold Endpoints.match_users.
  pose proof (match_users_fst token_sort_ratio fs st transaction_id) as Hf.
  destruct (UserMatcher.match_users token_sort_ratio fs st transaction_id)
    as [r st'].
  cbn [fst] in Hf. subst r.
  unfold UserMatcher.match_users_on. rewrite C. reflexivity.
Qed.

(** X18.  [GET /search-similar-descriptions] rejects a request without
    query or with the empty query, with status 422 and without touching
    the state; every other request it answers with status 200, and the
    token count is 0 for an empty table and the number of tokens of the
    query otherwise. *)
Theorem search_endpoint_answers (fs : files) (st : state)
    (query : option string) :
  match query with
  | None | Some EmptyString =>
      Endpoints.search_similar_descriptions vector encode dot norm
        SIMILARITY_THRESHOLD str fs st query
      = (Endpoints.Http422, st)
  | Some q =>
      exists res,
        fst (Endpoints.search_similar_descriptions vector encode dot norm
               SIMILARITY_THRESHOLD str fs st query)
        = Endpoints.Http200
            {| Models.transactions := res;
               Models.total_number_of_tokens_used :=
                 if Dict.is_empty (fst (DataLoader.get_transactions fs st))
                 then 0%nat else List.length (PyStr.split q) |}
  end.
Proof.
  destruct query as [[|c q]|]; [reflexivity| |reflexivity].
  unfold Endpoints.search_similar_descriptions. cbn [String.length Nat.ltb Nat.leb].
  destruct (search_transactions_shape vector encode dot norm
              SIMILARITY_THRESHOLD fs st (String c q)) as [m [Hr _]].
  destruct (SemanticSearcher.search_transactions vector encode dot norm
              SIMILARITY_THRESHOLD fs st (String c q)) as [r st'].
  cbn [fst] in Hr. subst r. exists (ranked_transactions m). reflexivity.
Qed.

End EndpointProperties.

(** ** Instances of the further properties *)

Section FurtherInstances.

Local Open Scope Q_scope.

Local Abbreviation toy_search_on :=
  (SemanticSearcher.search_transactions_on toy_vector toy_encode toy_dot toy_norm).
Local Abbreviation toy_score :=
  (score_of toy_vector toy_encode toy_dot toy_norm).

(** The table of [repeated_files]: the id "u1" keeps the first place and
    has the name of its last row. *)
Example repeated_id_table :
  users_of repeated_files = [("u1", "Emily"); ("u2", "Liam")].
Proof. reflexivity. Qed.

Lemma last_row_wins_witness :
  Dict.get
    (DataLoader.load "id" "name"
       (Some ([ [("id", "u1"); ("name", "Emma")];
                [("id", "u2"); ("name", "Liam")] ]
              ++ [("id", "u1"); ("name", "Emily")] :: [])%list)) "u1"
  = Some "Emily".
Proof.
  apply last_row_wins; [reflexivity|reflexivity|intros r' []].
Defined.



Lemma matches_come_from_table_witness :
  incl (map user_id [{| user_id := "u1"; match_metric := 1 |};
                     {| user_id := "u2"; match_metric := 1 |}])
       (Dict.keys (users_of twin_files)) /\
  (List.length [{| user_id := "u1"; match_metric := 1 |};
                {| user_id := "u2"; match_metric := 1 |}]
   <= List.length (users_of twin_files))%nat /\
  2%nat = List.length [{| user_id := "u1"; match_metric := 1 |};
                       {| user_id := "u2"; match_metric := 1 |}].
Proof.
  apply (matches_come_from_table lcs_ratio (transactions_of twin_files)
           (users_of twin_files) "t1").
  vm_compute. reflexivity.
Defined.

Lemma unknown_id_answered_empty_witness :
  fst (Endpoints.match_users lcs_ratio (fun _ => "error") example_files
         initial_state "invalid_id")
  = Endpoints.Http200
      {| Models.users := []; Models.total_number_of_matches := 0 |}.
Proof.
  apply unknown_id_answered_empty. reflexivity.
Defined.

Lemma substring_score_range_witness :
  exists s,
    UserMatcher.score_user lcs_ratio "payment to liam johnson"
      (PyStr.split "payment to liam johnson") "Liam Johnson" = Ok (Some s) /\
    0.85 <= s /\ s < 0.95.
Proof.
  apply substring_score_range; [discriminate|discriminate|reflexivity|reflexivity].
Defined.



Lemma raising_threshold_drops_results_witness :
  exists res1 res2 n,
    fst (toy_search_on 0.3 (transactions_of example_files) "salary" initial_state)
    = Ok (res1, n) /\
    fst (toy_search_on 0.5 (transactions_of example_files) "salary" initial_state)
    = Ok (res2, n) /\
    incl res2 res1.
Proof.
  apply raising_threshold_drops_results.
  - exact (load_wf "id" "description" (transactions_csv example_files)).
  - discriminate.
Defined.


Lemma no_tokens_iff_blank_witness :
  exists res n,
    fst (SemanticSearcher.search_transactions toy_vector toy_encode toy_dot
           toy_norm 0.3 example_files initial_state " ") = Ok (res, n) /\
    (n = 0%nat <-> blank " " = true).
Proof.
  apply no_tokens_iff_blank. reflexivity.
Defined.

End FurtherInstances.
